(** * go-license: classification of license texts and license-file discovery

    A shallow embedding of [license.go] and the properties of its
    classification rules, its normalisation step, the license-file locator
    and the directory scan.

    Go strings are modelled by the sequence of their runes (code points),
    which is how [strings.ToLower] and the [regexp] engine traverse them.
    All literals of the program are ASCII. *)

From Stdlib Require Import ZArith List String Ascii Bool Lia Relations.
From Stdlib Require Import Permutation.
Import ListNotations.
Open Scope Z_scope.

(** ** Strings *)

Definition rune := Z.
Definition gostring := list rune.

(** An ASCII literal of the source as a Go string. *)
Definition str (s : string) : gostring :=
  map (fun a => Z.of_nat (nat_of_ascii a)) (list_ascii_of_string s).

Definition LF : rune := 10.
Definition CR : rune := 13.
Definition SP : rune := 32.

Fixpoint gostring_eqb (a b : gostring) : bool :=
  match a, b with
  | [], [] => true
  | c :: a', d :: b' => (c =? d) && gostring_eqb a' b'
  | _, _ => false
  end.

(** [strings.HasPrefix s prefix]. *)
Fixpoint strings_HasPrefix (s prefix : gostring) {struct prefix} : bool :=
  match prefix, s with
  | [], _ => true
  | c :: p', d :: s' => (c =? d) && strings_HasPrefix s' p'
  | _ :: _, [] => false
  end.

(** [strings.Contains s substr]: some suffix of [s] starts with [substr]. *)
Fixpoint strings_Contains (s substr : gostring) : bool :=
  strings_HasPrefix s substr
  || match s with
     | [] => false
     | _ :: t => strings_Contains t substr
     end.

(** [strings.Replace s "*" ".*" -1], the only use the program makes of it. *)
Definition strings_Replace_star (s : gostring) : gostring :=
  flat_map (fun c => if c =? 42 then [46; 42] else [c]) s.

(** ** Errors *)

(** An error of the operating system, as [ioutil.ReadFile] and
    [ioutil.ReadDir] return it. *)
Record PathError := { Op : gostring; Path : gostring; Msg : gostring }.

(** The values of Go's [error] the package can return: its three sentinel
    errors, compared by identity, and the errors of the operating system
    that it hands on. *)
Inductive error :=
| ErrNoLicenseFile
| ErrUnrecognizedLicense
| ErrMultipleLicenses
| IOError (e : PathError).

Inductive result (A : Type) :=
| Ok (a : A)
| Err (e : error).
Arguments Ok {A} a.
Arguments Err {A} e.

(** ** Recognized license types *)

Definition LicenseMIT : gostring := str "MIT".
Definition LicenseISC : gostring := str "ISC".
Definition LicenseBSD3Clause : gostring := str "BSD-3-Clause".
Definition LicenseBSD2Clause : gostring := str "BSD-2-Clause".
Definition LicenseApache20 : gostring := str "Apache-2.0".
Definition LicenseMPL20 : gostring := str "MPL-2.0".
Definition LicenseGPL20 : gostring := str "GPL-2.0".
Definition LicenseGPL30 : gostring := str "GPL-3.0".
Definition LicenseLGPL21 : gostring := str "LGPL-2.1".
Definition LicenseLGPL30 : gostring := str "LGPL-3.0".
Definition LicenseAGPL30 : gostring := str "AGPL-3.0".
Definition LicenseCDDL10 : gostring := str "CDDL-1.0".
Definition LicenseEPL10 : gostring := str "EPL-1.0".
Definition LicenseZlib : gostring := str "zlib".
Definition LicenseUnlicense : gostring := str "Unlicense".

Definition DefaultLicenseFiles : list gostring :=
  [str "license*"; str "licence*"; str "copying*"; str "unlicense"].

Definition KnownLicenses : list gostring :=
  [LicenseMIT; LicenseISC; LicenseBSD3Clause; LicenseBSD2Clause;
   LicenseApache20; LicenseMPL20; LicenseGPL20; LicenseGPL30;
   LicenseLGPL21; LicenseLGPL30; LicenseAGPL30; LicenseCDDL10;
   LicenseEPL10; LicenseZlib; LicenseUnlicense].

(** ** The License entity *)

Record License := {
  Type_ : gostring;   (* The type of license in use *)
  Text : gostring;    (* License text data *)
  File : gostring     (* The path to the source file, if any *)
}.

Definition New (licenseType licenseText : gostring) : License :=
  {| Type_ := licenseType; Text := licenseText; File := [] |}.

(** The assignment [l.Type = t] through the pointer receiver. *)
Definition setType (l : License) (t : gostring) : License :=
  {| Type_ := t; Text := Text l; File := File l |}.

(** [Recognized]: the loop over [KnownLicenses] returns at the first equal
    entry and falls through to [false]. *)
Fixpoint Recognized_loop (known : list gostring) (t : gostring) : bool :=
  match known with
  | [] => false
  | license :: rest =>
      if gostring_eqb license t then true else Recognized_loop rest t
  end.

Definition Recognized (l : License) : bool :=
  Recognized_loop KnownLicenses (Type_ l).

(** ** Regular expressions of [GuessType] *)

(** The class [\s] of Go's regexp syntax: tab, newline, form feed, carriage
    return and space. *)
Definition isSpace (c : rune) : bool :=
  (c =? 9) || (c =? 10) || (c =? 12) || (c =? 13) || (c =? 32).

Definition headIsSpace (s : gostring) : bool :=
  match s with
  | [] => false
  | c :: _ => isSpace c
  end.

(** [regexp.MustCompile("(\r\n|\n)").ReplaceAllLiteralString(s, repl)]:
    scanning from the left, a carriage return directly followed by a
    newline, or a newline alone, is one match and is replaced by [repl];
    any other rune is copied. *)
Fixpoint newlineRegexp_ReplaceAll (s repl : gostring) : gostring :=
  match s with
  | [] => []
  | c :: t =>
      match t with
      | d :: t' =>
          if (c =? CR) && (d =? LF) then repl ++ newlineRegexp_ReplaceAll t' repl
          else if c =? LF then repl ++ newlineRegexp_ReplaceAll t repl
          else c :: newlineRegexp_ReplaceAll t repl
      | [] => if c =? LF then repl else [c]
      end
  end.

(** [regexp.MustCompile("\\s{2,}").ReplaceAllLiteralString(s, repl)] as the
    scan the engine performs: a match starts at a whitespace rune that is
    followed by another one and, being greedy, covers the whole run;
    [inRun] records that the scan is inside a run whose replacement has
    been written already. A whitespace rune standing alone is copied. *)
Fixpoint spaceRegexp_scan (inRun : bool) (s repl : gostring) : gostring :=
  match s with
  | [] => []
  | c :: t =>
      if isSpace c then
        if inRun then spaceRegexp_scan true t repl
        else if headIsSpace t then repl ++ spaceRegexp_scan true t repl
        else c :: spaceRegexp_scan false t repl
      else c :: spaceRegexp_scan false t repl
  end.

Definition spaceRegexp_ReplaceAll (s repl : gostring) : gostring :=
  spaceRegexp_scan false s repl.

(** The rest of a string after its leading whitespace. *)
Fixpoint skipSpaces (s : gostring) : gostring :=
  match s with
  | [] => []
  | c :: t => if isSpace c then skipSpaces t else s
  end.

(** [scan] is a shortcut for a literal match within a string of text. *)
Definition scan (text match_ : gostring) : bool :=
  strings_Contains text match_.

Section Unicode.

(** [unicode.To(unicode.LowerCase, r)] on the runes above ASCII: the case
    tables of the Unicode database are not part of the program. *)
Variable caseTableLower : rune -> rune.

(** [unicode.ToLower]. *)
Definition unicode_ToLower (r : rune) : rune :=
  if r <=? 127 then
    if (65 <=? r) && (r <=? 90) then r + 32 else r
  else caseTableLower r.

(** [strings.ToLower]: every rune is mapped by [unicode.ToLower]. *)
Definition strings_ToLower (s : gostring) : gostring :=
  map unicode_ToLower s.

(** The comparison text [comp] that [GuessType] builds before the switch. *)
Definition normalize (text : gostring) : gostring :=
  let comp := strings_ToLower text in
  let comp := newlineRegexp_ReplaceAll comp (str " ") in
  let comp := spaceRegexp_ReplaceAll comp (str " ") in
  comp.

(** The switch of [GuessType] on the comparison text: the license type to
    assign, or [None] for the default case. *)
Definition guessSwitch (comp : gostring) : option gostring :=
  if scan comp (str "permission is hereby granted, free of charge, to any "
                ++ str "person obtaining a copy of this software")
  then Some LicenseMIT
  else if scan comp (str "permission to use, copy, modify, and/or distribute this "
                     ++ str "software for any")
  then Some LicenseISC
  else if scan comp (str "apache license version 2.0, january 2004")
          || scan comp (str "http://www.apache.org/licenses/license-2.0")
  then Some LicenseApache20
  else if scan comp (str "gnu general public license version 2, june 1991")
  then Some LicenseGPL20
  else if scan comp (str "gnu general public license version 3, 29 june 2007")
  then Some LicenseGPL30
  else if scan comp (str "gnu lesser general public license version 2.1, "
                     ++ str "february 1999")
  then Some LicenseLGPL21
  else if scan comp (str "gnu lesser general public license version 3, "
                     ++ str "29 june 2007")
  then Some LicenseLGPL30
  else if scan comp (str "gnu affero general public license "
                     ++ str "version 3, 19 november 2007")
  then Some LicenseAGPL30
  else if scan comp (str "mozilla public license") && scan comp (str "version 2.0")
  then Some LicenseMPL20
  else if scan comp (str "redistribution and use in source and binary forms")
  then
    if scan comp (str "neither the name of")
    then Some LicenseBSD3Clause
    else Some LicenseBSD2Clause
  else if scan comp (str "common development and distribution license (cddl) "
                     ++ str "version 1.0")
  then Some LicenseCDDL10
  else if scan comp (str "eclipse public license - v 1.0")
  then Some LicenseEPL10
  else if scan comp (str "permission is granted to anyone to use this software for any purpose")
  then Some LicenseZlib
  else if scan comp (str "this is free and unencumbered software released into "
                     ++ str "the public domain")
  then Some LicenseUnlicense
  else None.

(** [GuessType] works on the entity through a pointer: the result is the
    entity after the call and the error returned ([None] for [nil]). *)
Definition GuessType (l : License) : License * option error :=
  let comp := normalize (Text l) in
  match guessSwitch comp with
  | Some t => (setType l t, None)
  | None => (l, Some ErrUnrecognizedLicense)
  end.


(** ** File-name patterns *)

(** The regular expressions the program compiles for file names have the
    shape [(?i)^] followed by literal runes and [.*]; [ReFold] holds the
    items after the anchor. Any other expression is kept as its source
    text and left to the regexp engine. *)
Inductive reItem :=
| ReLit (c : rune)
| ReDotStar.

Inductive Regexp :=
| ReFold (items : list reItem)
| ReOther (expr : gostring).

(** Case folding of the regexp flag [(?i)] for a literal above ASCII, and
    the regexp engine on expressions of another shape: both belong to Go's
    library. *)
Variable foldTable : rune -> rune -> bool.
Variable regexpEngine : gostring -> gostring -> bool.

Definition asciiLower (r : rune) : rune :=
  if (65 <=? r) && (r <=? 90) then r + 32 else r.

(** Does literal [c] of a case-insensitive pattern match the rune [d]?
    An ASCII letter matches its two cases; the fold orbits of [k] and [s]
    also hold the Kelvin sign U+212A and the long s U+017F. *)
Definition foldEq (c d : rune) : bool :=
  if c <=? 127 then
    (asciiLower c =? asciiLower d)
    || ((asciiLower c =? 107) && (d =? 8490))
    || ((asciiLower c =? 115) && (d =? 383))
  else foldTable c d.

(** Matching anchored at the start of [s] and open at its end: [.] takes
    any rune but a newline, [.*] any number of them. *)
Fixpoint matchItems (items : list reItem) (s : gostring) : bool :=
  match items with
  | [] => true
  | ReLit c :: rest =>
      match s with
      | d :: s' => foldEq c d && matchItems rest s'
      | [] => false
      end
  | ReDotStar :: rest =>
      (fix star (s : gostring) : bool :=
         matchItems rest s
         || match s with
            | d :: s' => negb (d =? LF) && star s'
            | [] => false
            end) s
  end.

(** [pattern.MatchString(file)]. *)
Definition MatchString (pattern : Regexp) (s : gostring) : bool :=
  match pattern with
  | ReFold items => matchItems items s
  | ReOther expr => regexpEngine expr s
  end.

(** The runes with a meaning in Go's regexp syntax. *)
Definition isMeta (c : rune) : bool :=
  existsb (Z.eqb c) (str "\.+*?()|[]{}^$").

Fixpoint parseItems (s : gostring) : option (list reItem) :=
  match s with
  | [] => Some []
  | c :: t =>
      if c =? 46 then
        match t with
        | d :: t' =>
            if d =? 42 then option_map (cons ReDotStar) (parseItems t')
            else None
        | [] => None
        end
      else if isMeta c then None
      else option_map (cons (ReLit c)) (parseItems t)
  end.

Fixpoint stripPrefix (prefix s : gostring) : option gostring :=
  match prefix, s with
  | [], _ => Some s
  | c :: p', d :: s' => if c =? d then stripPrefix p' s' else None
  | _ :: _, [] => None
  end.

(** [regexp.MustCompile] on the expressions of the shape above. *)
Definition regexp_MustCompile (expr : gostring) : Regexp :=
  match stripPrefix (str "(?i)^") expr with
  | Some rest =>
      match parseItems rest with
      | Some items => ReFold items
      | None => ReOther expr
      end
  | None => ReOther expr
  end.

(** [complileLicensePatters]: its error is always [nil]. *)
Definition complileLicensePatters (licenses : list gostring) : result (list Regexp) :=
  Ok (fold_left
        (fun patterns license =>
           let pattern := regexp_MustCompile (str "(?i)^" ++ strings_Replace_star license) in
           patterns ++ [pattern])
        licenses []).

(** [matchLicenseFile]: the two nested loops appending to [out]. *)
Definition matchLicenseFile (patterns : list Regexp) (files : list gostring) : list gostring :=
  fold_left
    (fun out file =>
       fold_left
         (fun out pattern => if MatchString pattern file then out ++ [file] else out)
         patterns out)
    files [].

Definition getLicenseFile (patterns : list Regexp) (files : list gostring) : result (list gostring) :=
  let matches := matchLicenseFile patterns files in
  if (List.length matches =? 0)%nat then Err ErrNoLicenseFile
  else Ok matches.

(** ** The file system *)

Record FileInfo := { Name : gostring; IsDir : bool }.

(** [ioutil.ReadFile], [ioutil.ReadDir] and [filepath.Join]: the state of
    the file system during one call of the package. *)
Variable ioutil_ReadFile : gostring -> gostring + PathError.
Variable ioutil_ReadDir : gostring -> list FileInfo + PathError.
Variable filepath_Join : gostring -> gostring -> gostring.

Definition NewFromFile (path : gostring) : result License :=
  match ioutil_ReadFile path with
  | inr err => Err (IOError err)
  | inl licenseText =>
      let l := {| Type_ := []; Text := licenseText; File := path |} in
      match GuessType l with
      | (_, Some err) => Err err
      | (l, None) => Ok l
      end
  end.

Definition readDirectory (dir : gostring) : result (list gostring) :=
  match ioutil_ReadDir dir with
  | inr err => Err (IOError err)
  | inl fileinfos => Ok (map Name fileinfos)
  end.

(** The body of the loop of [guessFromDir] over the matched names. *)
Definition guessFromDir_step (dir : gostring) (licenses : list License) (match_ : gostring)
  : list License :=
  match NewFromFile (filepath_Join dir match_) with
  | Ok l =>
      match GuessType l with
      | (l, None) => licenses ++ [l]
      | (_, Some _) => licenses
      end
  | Err _ => licenses
  end.

Definition guessFromDir (dir : gostring) : result (list License) :=
  match readDirectory dir with
  | Err err => Err err
  | Ok files =>
      match complileLicensePatters DefaultLicenseFiles with
      | Err err => Err err
      | Ok patterns =>
          match getLicenseFile patterns files with
          | Err err => Err err
          | Ok matchs =>
              let licenses := fold_left (guessFromDir_step dir) matchs [] in
              if (List.length licenses =? 0)%nat then Err ErrUnrecognizedLicense
              else Ok licenses
          end
      end
  end.

(** [NewFromDir] returns [ls[0]]; indexing an empty slice panics, which is
    the result [None]. *)
Definition NewFromDir (dir : gostring) : option (result License) :=
  match guessFromDir dir with
  | Err err => Some (Err err)
  | Ok ls =>
      match ls with
      | l :: _ => Some (Ok l)
      | [] => None
      end
  end.

Definition NewLicencesFromDir (dir : gostring) : result (list License) :=
  guessFromDir dir.

(** ** The rule table of the specification *)

(** The ordered rule table: a rule is a conjunction of literal phrases and
    the identifier it assigns. The two alternative phrases of Apache-2.0
    are two consecutive rules with the same identifier; the BSD family is
    the rule with the non-endorsement clause followed by the rule on the
    shared preamble alone. *)
Definition ruleTable : list (list gostring * gostring) :=
  [ ([str "permission is hereby granted, free of charge, to any person obtaining a copy of this software"],
     LicenseMIT);
    ([str "permission to use, copy, modify, and/or distribute this software for any"],
     LicenseISC);
    ([str "apache license version 2.0, january 2004"], LicenseApache20);
    ([str "http://www.apache.org/licenses/license-2.0"], LicenseApache20);
    ([str "gnu general public license version 2, june 1991"], LicenseGPL20);
    ([str "gnu general public license version 3, 29 june 2007"], LicenseGPL30);
    ([str "gnu lesser general public license version 2.1, february 1999"], LicenseLGPL21);
    ([str "gnu lesser general public license version 3, 29 june 2007"], LicenseLGPL30);
    ([str "gnu affero general public license version 3, 19 november 2007"], LicenseAGPL30);
    ([str "mozilla public license"; str "version 2.0"], LicenseMPL20);
    ([str "redistribution and use in source and binary forms"; str "neither the name of"],
     LicenseBSD3Clause);
    ([str "redistribution and use in source and binary forms"], LicenseBSD2Clause);
    ([str "common development and distribution license (cddl) version 1.0"], LicenseCDDL10);
    ([str "eclipse public license - v 1.0"], LicenseEPL10);
    ([str "permission is granted to anyone to use this software for any purpose"], LicenseZlib);
    ([str "this is free and unencumbered software released into the public domain"],
     LicenseUnlicense) ].

(** A rule holds when the text contains each of its phrases. *)
Definition ruleHolds (comp : gostring) (r : list gostring * gostring) : bool :=
  forallb (scan comp) (fst r).

(** First match wins. *)
Definition firstMatch (comp : gostring) : option gostring :=
  option_map snd (find (ruleHolds comp) ruleTable).

Definition classify (text : gostring) : option gostring :=
  firstMatch (normalize text).

(** The rules that stand before the BSD family in the table. *)
Definition rulesBeforeBSD : list (list gostring * gostring) := firstn 10 ruleTable.

(** The identifiers in the order of the specification's table. *)
Definition specOrder : list gostring :=
  [LicenseMIT; LicenseISC; LicenseApache20; LicenseGPL20; LicenseGPL30;
   LicenseLGPL21; LicenseLGPL30; LicenseAGPL30; LicenseMPL20;
   LicenseBSD3Clause; LicenseBSD2Clause; LicenseCDDL10; LicenseEPL10;
   LicenseZlib; LicenseUnlicense].

(** A list without the repetitions of an entry directly after itself. *)
Fixpoint squeeze (l : list gostring) : list gostring :=
  match l with
  | [] => []
  | a :: t =>
      match t with
      | b :: _ => if gostring_eqb a b then squeeze t else a :: squeeze t
      | [] => [a]
      end
  end.

(** ** The File Locator and the scan of the specification *)

(** The filenames that match, in the order supplied, once per matching
    pattern. *)
Definition locate (patterns : list Regexp) (files : list gostring) : list gostring :=
  flat_map
    (fun file => flat_map (fun p => if MatchString p file then [file] else []) patterns)
    files.

(** [s] starts with [lit], compared rune by rune without regard to case. *)
Fixpoint hasFoldPrefix (lit s : gostring) : bool :=
  match lit, s with
  | [], _ => true
  | c :: lit', d :: s' => foldEq c d && hasFoldPrefix lit' s'
  | _ :: _, [] => false
  end.

(** A candidate license file: its name starts with one of the default
    names. *)
Definition isLicenseName (name : gostring) : bool :=
  existsb (fun lit => hasFoldPrefix lit name)
          [str "license"; str "licence"; str "copying"; str "unlicense"].

(** Two strings that differ at most in the case of ASCII letters. *)
Definition sameUpToCase (s s' : gostring) : Prop :=
  map asciiLower s = map asciiLower s'.

(** The entity a candidate file yields: read and classified, or nothing. *)
Definition classifyFile (dir name : gostring) : option License :=
  match ioutil_ReadFile (filepath_Join dir name) with
  | inl text =>
      match classify text with
      | Some t => Some {| Type_ := t; Text := text; File := filepath_Join dir name |}
      | None => None
      end
  | inr _ => None
  end.

Definition optionToList {A} (o : option A) : list A :=
  match o with Some a => [a] | None => [] end.

(** The default patterns as [complileLicensePatters] compiles them. *)
Definition defaultPatterns : list Regexp :=
  [ ReFold (map ReLit (str "license") ++ [ReDotStar]);
    ReFold (map ReLit (str "licence") ++ [ReDotStar]);
    ReFold (map ReLit (str "copying") ++ [ReDotStar]);
    ReFold (map ReLit (str "unlicense")) ].

Definition gostring_eq_dec : forall a b : gostring, {a = b} + {a <> b} :=
  list_eq_dec Z.eq_dec.

(** Two literals agree, up to the case of ASCII letters, as far as both
    reach. *)
Fixpoint agreeLower (a b : gostring) : bool :=
  match a, b with
  | c :: a', d :: b' => (asciiLower c =? asciiLower d) && agreeLower a' b'
  | _, _ => true
  end.


(** ** Variants of a text *)




(** ** Shape of a normalised text *)

Definition headIs (c : rune) (s : gostring) : bool :=
  match s with
  | [] => false
  | d :: _ => d =? c
  end.

Fixpoint lastIsSpace (s : gostring) : bool :=
  match s with
  | [] => false
  | c :: t =>
      match t with
      | [] => isSpace c
      | _ :: _ => lastIsSpace t
      end
  end.

Fixpoint lastIs (c : rune) (s : gostring) : bool :=
  match s with
  | [] => false
  | d :: t =>
      match t with
      | [] => d =? c
      | _ :: _ => lastIs c t
      end
  end.

(** No whitespace rune is followed by another one. *)
Fixpoint noSpaceRun (s : gostring) : bool :=
  match s with
  | [] => true
  | c :: t => negb (isSpace c && headIsSpace t) && noSpaceRun t
  end.

(** The two replacements of [GuessType], after the case folding. *)
Definition squash (s : gostring) : gostring :=
  spaceRegexp_ReplaceAll (newlineRegexp_ReplaceAll s [SP]) [SP].

(** A phrase that neither starts nor ends with whitespace. *)
Definition goodPhrase (p : gostring) : bool :=
  match p with
  | [] => false
  | _ :: _ => negb (headIsSpace p) && negb (lastIsSpace p)
  end.


(** The replacement of the line endings of [x] when a newline follows [x]:
    a carriage return at the end of [x] belongs to that line ending. *)
Fixpoint newlineBefore (x : gostring) : gostring :=
  match x with
  | [] => []
  | c :: t =>
      if c =? LF then SP :: newlineBefore t
      else if (c =? CR) && (match t with [] => true | d :: _ => d =? LF end)
           then newlineBefore t
           else c :: newlineBefore t
  end.

(** ** A sample file system and sample texts *)

(** A table that leaves the runes above ASCII alone, a fold table and an
    engine that match nothing: the samples below are ASCII and never
    consult them. *)
Definition sampleCaseTable : rune -> rune := fun r => r.
Definition sampleFoldTable : rune -> rune -> bool := fun _ _ => false.
Definition sampleEngine : gostring -> gostring -> bool := fun _ _ => false.

Definition sampleJoin (dir name : gostring) : gostring := dir ++ 47 :: name.

Definition mitText : gostring :=
  str "Permission is hereby granted, free of charge, to any person obtaining a copy"
  ++ [LF] ++ str "of this software and associated documentation files".

Definition apacheText : gostring :=
  str "Licensed under the Apache License, Version 2.0;" ++ [CR; LF]
  ++ str "see  http://www.apache.org/licenses/LICENSE-2.0".

Definition bsd3Text : gostring :=
  str "Redistribution and use in source and binary forms, with or without" ++ [LF]
  ++ str "modification, are permitted. Neither the name of the copyright holder" ++ [LF]
  ++ str "nor the names of its contributors may be used.".

Definition bsd2Text : gostring :=
  str "Redistribution and use in source and binary forms, with or without" ++ [LF]
  ++ str "modification, are permitted.".

Definition helloText : gostring := str "hello world".

(** The directory [/repo] holds [COPYING] (not a license text), [LICENSE]
    (MIT), [LICENSE.bad] (unreadable), [LICENSE.txt] (Apache-2.0) and
    [README.md]; [/docs] holds [README.md] only; nothing else exists. *)
Definition sampleReadDir (dir : gostring) : list FileInfo + PathError :=
  if gostring_eqb dir (str "/repo") then
    inl [ {| Name := str "COPYING"; IsDir := false |};
          {| Name := str "LICENSE"; IsDir := false |};
          {| Name := str "LICENSE.bad"; IsDir := false |};
          {| Name := str "LICENSE.txt"; IsDir := false |};
          {| Name := str "README.md"; IsDir := false |} ]
  else if gostring_eqb dir (str "/docs") then
    inl [ {| Name := str "README.md"; IsDir := false |} ]
  else inr {| Op := str "open"; Path := dir; Msg := str "no such file or directory" |}.

Definition sampleReadFile (path : gostring) : gostring + PathError :=
  if gostring_eqb path (str "/repo/COPYING") then inl helloText
  else if gostring_eqb path (str "/repo/LICENSE") then inl mitText
  else if gostring_eqb path (str "/repo/LICENSE.txt") then inl apacheText
  else if gostring_eqb path (str "/repo/README.md") then inl helloText
  else if gostring_eqb path (str "/docs/README.md") then inl helloText
  else inr {| Op := str "open"; Path := path; Msg := str "permission denied" |}.


(** ** More sample data *)

(** A text made of the phrases of a rule, each followed by a space. *)
Definition ruleText (r : list gostring * gostring) : gostring :=
  List.concat (map (fun p => p ++ [SP]) (fst r)).

(** The length of the longest phrase of a rule. *)
Definition longestPhrase (r : list gostring * gostring) : nat :=
  fold_right (fun p n => Nat.max (List.length p) n) 0%nat (fst r).


Definition failed {A} (r : result A) : bool :=
  match r with
  | Ok _ => false
  | Err _ => true
  end.

(** ** Properties of the classification *)

Lemma gostring_eqb_eq (a b : gostring) : gostring_eqb a b = true <-> a = b.
Proof.
  revert b; induction a as [|c a IH]; intros [|d b]; simpl; split; intro H;
    try reflexivity; try discriminate.
  - apply andb_true_iff in H as [Hc Hab]. apply Z.eqb_eq in Hc.
    apply IH in Hab. congruence.
  - injection H as -> ->. rewrite Z.eqb_refl. simpl. now apply IH.
Qed.

Lemma Recognized_loop_In (known : list gostring) (t : gostring) :
  Recognized_loop known t = true <-> In t known.
Proof.
  induction known as [|k known IH]; simpl.
  - split; [discriminate | intros []].
  - destruct (gostring_eqb k t) eqn:E.
    + apply gostring_eqb_eq in E. split; [intros _; now left | reflexivity].
    + rewrite IH. split; [intro H; now right|]. intros [H|H]; [|exact H].
      apply gostring_eqb_eq in H. congruence.
Qed.

(** The switch of the source and the first match over the table agree. *)
Lemma guessSwitch_firstMatch (comp : gostring) :
  guessSwitch comp = firstMatch comp.
Proof.
  unfold guessSwitch, firstMatch, ruleHolds.
  generalize (scan comp). intro f.
  vm_compute.
  repeat match goal with
         | |- context [f ?p] => destruct (f p)
         end; reflexivity.
Qed.

Lemma guessSwitch_known (comp t : gostring) :
  guessSwitch comp = Some t -> In t KnownLicenses.
Proof.
  unfold guessSwitch.
  repeat match goal with
         | |- context [if ?b then _ else _] => destruct b
         end;
    intro H; try discriminate; injection H as <-; unfold KnownLicenses;
    repeat (first [left; reflexivity | right]).
Qed.

Lemma GuessType_classify (l : License) :
  GuessType l =
  match classify (Text l) with
  | Some t => (setType l t, None)
  | None => (l, Some ErrUnrecognizedLicense)
  end.
Proof.
  unfold GuessType, classify. now rewrite guessSwitch_firstMatch.
Qed.

Lemma find_first {A} (f : A -> bool) (l : list A) (a : A) :
  find f l = Some a <->
  exists before after,
    l = before ++ a :: after /\ f a = true /\
    forall b, In b before -> f b = false.
Proof.
  induction l as [|h l IH]; simpl.
  - split; [discriminate|]. intros (before & after & E & _).
    destruct before; discriminate.
  - destruct (f h) eqn:Fh.
    + split.
      * intro H. injection H as <-. exists [], l. simpl. tauto.
      * intros (before & after & E & Fa & Hb). destruct before as [|b before].
        -- simpl in E. congruence.
        -- injection E as -> _. rewrite (Hb b (or_introl eq_refl)) in Fh. discriminate.
    + rewrite IH. split.
      * intros (before & after & -> & Fa & Hb). exists (h :: before), after.
        simpl. repeat split; trivial. intros b [<-|Hin]; auto.
      * intros (before & after & E & Fa & Hb). destruct before as [|b before].
        -- simpl in E. injection E as -> _. congruence.
        -- injection E as -> ->. exists before, after. repeat split; trivial.
           intros b' Hin. apply Hb. now right.
Qed.

Lemma find_none_iff {A} (f : A -> bool) (l : list A) :
  find f l = None <-> forall a, In a l -> f a = false.
Proof.
  induction l as [|h l IH]; simpl.
  - split; auto. intros _ a [].
  - destruct (f h) eqn:Fh.
    + split; [discriminate|]. intro H. rewrite (H h (or_introl eq_refl)) in Fh.
      discriminate.
    + rewrite IH. split.
      * intros H a [<-|Hin]; auto.
      * intros H a Hin. apply H. now right.
Qed.

(** C1: classification normalises the text once and evaluates the fixed
    rule table in the order of the specification (MIT, ISC, Apache-2.0,
    GPL-2.0, GPL-3.0, LGPL-2.1, LGPL-3.0, AGPL-3.0, MPL-2.0, BSD-3/BSD-2,
    CDDL-1.0, EPL-1.0, zlib, Unlicense); a rule holds exactly when every
    one of its literal phrases is contained in the normalised text; the
    identifier of the first rule that holds is assigned, and when none
    holds the call fails with the unrecognized-license error. *)
Theorem C1_first_matching_rule (l : License) :
  let comp := normalize (Text l) in
  (GuessType l =
   match firstMatch comp with
   | Some t => (setType l t, None)
   | None => (l, Some ErrUnrecognizedLicense)
   end)
  /\ squeeze (map snd ruleTable) = specOrder
  /\ (forall r, ruleHolds comp r = true <-> forall p, In p (fst r) -> scan comp p = true)
  /\ (forall t,
        firstMatch comp = Some t <->
        exists before r after,
          ruleTable = before ++ r :: after /\ snd r = t /\
          ruleHolds comp r = true /\
          forall r', In r' before -> ruleHolds comp r' = false)
  /\ (firstMatch comp = None <-> forall r, In r ruleTable -> ruleHolds comp r = false).
Proof.
  intro comp. repeat split.
  - apply GuessType_classify.
  - unfold ruleHolds. rewrite forallb_forall. auto.
  - unfold ruleHolds. rewrite forallb_forall. auto.
  - unfold firstMatch. destruct (find (ruleHolds comp) ruleTable) as [r|] eqn:F;
      simpl; intro H; [|discriminate].
    injection H as <-. apply find_first in F as (before & after & E & Hr & Hb).
    exists before, r, after. auto.
  - intros (before & r & after & E & <- & Hr & Hb). unfold firstMatch.
    assert (F : find (ruleHolds comp) ruleTable = Some r).
    { apply find_first. exists before, after. auto. }
    now rewrite F.
  - unfold firstMatch. intro H. apply find_none_iff.
    destruct (find (ruleHolds comp) ruleTable); [discriminate|reflexivity].
  - intro H. apply find_none_iff in H. unfold firstMatch. now rewrite H.
Qed.

(** C2: a text whose normalised form contains the BSD preamble and on
    which no earlier rule holds is classified BSD-3-Clause when the
    normalised form also contains the phrase "neither the name of", and
    BSD-2-Clause otherwise. *)
Theorem C2_BSD_family (l : License) :
  let comp := normalize (Text l) in
  scan comp (str "redistribution and use in source and binary forms") = true ->
  existsb (ruleHolds comp) rulesBeforeBSD = false ->
  GuessType l =
  (setType l (if scan comp (str "neither the name of")
              then LicenseBSD3Clause else LicenseBSD2Clause),
   None).
Proof.
  intro comp. unfold GuessType. fold comp.
  unfold guessSwitch, rulesBeforeBSD, ruleHolds.
  generalize (scan comp). intro f.
  vm_compute.
  repeat match goal with
         | |- context [f ?p] => destruct (f p)
         end; intros; try discriminate; reflexivity.
Qed.

(** C8: an identifier assigned by a successful classification belongs to
    the registry of known identifiers; [Recognized] is true exactly when
    the identifier of the entity belongs to the registry, hence true after
    a successful classification and false for the empty identifier and for
    any identifier outside the registry. *)
Theorem C8_identifier_registry :
  (forall l l', GuessType l = (l', None) ->
                In (Type_ l') KnownLicenses /\ Recognized l' = true)
  /\ (forall l, Recognized l = true <-> In (Type_ l) KnownLicenses)
  /\ (forall text, Recognized (New [] text) = false)
  /\ (forall t text, ~ In t KnownLicenses -> Recognized (New t text) = false).
Proof.
  assert (R : forall l, Recognized l = true <-> In (Type_ l) KnownLicenses).
  { intro l. apply Recognized_loop_In. }
  split; [|split; [|split]].
  - intros l l' H. unfold GuessType in H.
    destruct (guessSwitch (normalize (Text l))) as [t|] eqn:G; [|discriminate].
    injection H as <-. apply guessSwitch_known in G.
    split; [exact G | apply R; exact G].
  - exact R.
  - reflexivity.
  - intros t text H. destruct (Recognized (New t text)) eqn:E; [|reflexivity].
    apply R in E. contradiction.
Qed.

(** C10: when [GuessType] fails, the error is the unrecognized-license
    error and the entity is left as it was: its identifier, even one
    assigned before, its text and its source path are unchanged. *)
Theorem C10_failure_keeps_entity (l l' : License) (e : error) :
  GuessType l = (l', Some e) ->
  e = ErrUnrecognizedLicense /\ l' = l /\
  Type_ l' = Type_ l /\ Text l' = Text l /\ File l' = File l.
Proof.
  unfold GuessType.
  destruct (guessSwitch (normalize (Text l))); intro H; [discriminate|].
  injection H as <- <-. auto.
Qed.


(** ** Properties of the File Locator *)

Lemma matchLicenseFile_inner (patterns : list Regexp) (file : gostring) (out : list gostring) :
  fold_left (fun out pattern => if MatchString pattern file then out ++ [file] else out)
            patterns out
  = out ++ flat_map (fun p => if MatchString p file then [file] else []) patterns.
Proof.
  revert out. induction patterns as [|p ps IH]; intro out; simpl.
  - now rewrite app_nil_r.
  - rewrite IH. destruct (MatchString p file); simpl.
    + now rewrite <- app_assoc.
    + reflexivity.
Qed.

Lemma matchLicenseFile_outer (patterns : list Regexp) (files out : list gostring) :
  fold_left
    (fun out file =>
       fold_left (fun out pattern => if MatchString pattern file then out ++ [file] else out)
                 patterns out)
    files out
  = out ++ locate patterns files.
Proof.
  revert out. induction files as [|f fs IH]; intro out; simpl.
  - now rewrite app_nil_r.
  - rewrite IH, matchLicenseFile_inner. now rewrite <- app_assoc.
Qed.

Lemma matchLicenseFile_locate (patterns : list Regexp) (files : list gostring) :
  matchLicenseFile patterns files = locate patterns files.
Proof.
  unfold matchLicenseFile. now rewrite matchLicenseFile_outer.
Qed.

Lemma locate_app (patterns : list Regexp) (fs1 fs2 : list gostring) :
  locate patterns (fs1 ++ fs2) = locate patterns fs1 ++ locate patterns fs2.
Proof.
  unfold locate. apply flat_map_app.
Qed.

Lemma locate_In (patterns : list Regexp) (files : list gostring) (f : gostring) :
  In f (locate patterns files) <->
  In f files /\ exists p, In p patterns /\ MatchString p f = true.
Proof.
  unfold locate. rewrite in_flat_map. split.
  - intros (file & Hfile & Hin). apply in_flat_map in Hin as (p & Hp & Hin).
    destruct (MatchString p file) eqn:M; simpl in Hin; [|contradiction].
    destruct Hin as [<-|[]]. eauto.
  - intros (Hf & p & Hp & M). exists f. split; trivial.
    apply in_flat_map. exists p. split; trivial. rewrite M. simpl. auto.
Qed.

Lemma inner_count (patterns : list Regexp) (file f : gostring) :
  count_occ gostring_eq_dec
            (flat_map (fun p => if MatchString p file then [file] else []) patterns) f
  = if gostring_eq_dec file f
    then List.length (filter (fun p => MatchString p f) patterns)
    else 0%nat.
Proof.
  induction patterns as [|p ps IH]; simpl.
  - now destruct (gostring_eq_dec file f).
  - rewrite count_occ_app, IH. destruct (gostring_eq_dec file f) as [->|N].
    + destruct (MatchString p f); simpl; [|reflexivity].
      now destruct (gostring_eq_dec f f).
    + destruct (MatchString p file); simpl; [|reflexivity].
      now destruct (gostring_eq_dec file f).
Qed.

Lemma locate_count (patterns : list Regexp) (files : list gostring) (f : gostring) :
  count_occ gostring_eq_dec (locate patterns files) f
  = (count_occ gostring_eq_dec files f
     * List.length (filter (fun p => MatchString p f) patterns))%nat.
Proof.
  unfold locate. induction files as [|file fs IH]; simpl; [reflexivity|].
  rewrite count_occ_app, IH, inner_count.
  destruct (gostring_eq_dec file f); lia.
Qed.

Lemma matchItems_star (rest : list reItem) (s : gostring) :
  matchItems (ReDotStar :: rest) s
  = matchItems rest s
    || match s with
       | d :: s' => negb (d =? LF) && matchItems (ReDotStar :: rest) s'
       | [] => false
       end.
Proof.
  destruct s; reflexivity.
Qed.

Lemma matchItems_lits (lit s : gostring) :
  matchItems (map ReLit lit) s = hasFoldPrefix lit s.
Proof.
  revert s. induction lit as [|c lit IH]; intro s; simpl; [reflexivity|].
  destruct s as [|d s]; [reflexivity|]. now rewrite IH.
Qed.

Lemma matchItems_lits_star (lit s : gostring) :
  matchItems (map ReLit lit ++ [ReDotStar]) s = hasFoldPrefix lit s.
Proof.
  revert s. induction lit as [|c lit IH]; intro s.
  - simpl. now destruct s.
  - destruct s as [|d s]; [reflexivity|]. simpl map. simpl app.
    change (matchItems (ReLit c :: map ReLit lit ++ [ReDotStar]) (d :: s))
      with (foldEq c d && matchItems (map ReLit lit ++ [ReDotStar]) s).
    now rewrite IH.
Qed.

Lemma asciiLower_eqb (d d' n : rune) :
  asciiLower d = asciiLower d' -> 127 < n \/ n < 65 -> (d =? n) = (d' =? n).
Proof.
  unfold asciiLower. intros H Hn.
  destruct (Z.eqb_spec d n), (Z.eqb_spec d' n); trivial; exfalso;
    destruct ((65 <=? d) && (d <=? 90)) eqn:A, ((65 <=? d') && (d' <=? 90)) eqn:B;
    rewrite ?andb_true_iff, ?andb_false_iff, ?Z.leb_le, ?Z.leb_gt in *; lia.
Qed.

Lemma foldEq_sameCase (c d d' : rune) :
  c <= 127 -> asciiLower d = asciiLower d' -> foldEq c d = foldEq c d'.
Proof.
  intros Hc H. unfold foldEq. apply Z.leb_le in Hc. rewrite Hc, H.
  rewrite (asciiLower_eqb d d' 8490 H), (asciiLower_eqb d d' 383 H) by lia.
  reflexivity.
Qed.

Lemma matchItems_sameCase (items : list reItem) (s s' : gostring) :
  (forall c, In (ReLit c) items -> c <= 127) ->
  sameUpToCase s s' ->
  matchItems items s = matchItems items s'.
Proof.
  unfold sameUpToCase. revert s s'.
  induction items as [|[c|] rest IH]; intros s s' Hc H; [reflexivity| |].
  - destruct s as [|d s], s' as [|d' s']; try discriminate; [reflexivity|].
    simpl in H. injection H as Hd Hs. simpl.
    rewrite (foldEq_sameCase c d d') by (trivial; apply Hc; now left).
    f_equal. apply IH; trivial. intros c' Hin. apply Hc. now right.
  - assert (Hrest : forall t t', map asciiLower t = map asciiLower t' ->
                                 matchItems rest t = matchItems rest t').
    { intros t t' Ht. apply IH; trivial. intros c' Hin. apply Hc. now right. }
    revert s' H. induction s as [|d s IHs]; intros [|d' s'] H; try discriminate.
    + reflexivity.
    + rewrite (matchItems_star rest (d :: s)), (matchItems_star rest (d' :: s')).
      rewrite (Hrest _ _ H). simpl in H. injection H as Hd Hs.
      rewrite (IHs s' Hs). unfold LF.
      rewrite (asciiLower_eqb d d' 10 Hd) by lia. reflexivity.
Qed.





Lemma complile_default :
  complileLicensePatters DefaultLicenseFiles = Ok defaultPatterns.
Proof.
  reflexivity.
Qed.

(** C5: the File Locator returns the filenames that match at least one
    pattern, in the order in which they were supplied and once per
    matching pattern; a pattern is compared without regard to case and
    from the start of the filename; [getLicenseFile] fails with the
    no-license-file error exactly when no filename matched. *)
Theorem C5_file_locator (patterns : list Regexp) (files : list gostring) :
  matchLicenseFile patterns files = locate patterns files
  /\ (forall f, In f (matchLicenseFile patterns files) <->
                In f files /\ exists p, In p patterns /\ MatchString p f = true)
  /\ (forall f, count_occ gostring_eq_dec (matchLicenseFile patterns files) f
                = (count_occ gostring_eq_dec files f
                   * List.length (filter (fun p => MatchString p f) patterns))%nat)
  /\ (forall fs1 fs2, files = fs1 ++ fs2 ->
                      matchLicenseFile patterns files
                      = matchLicenseFile patterns fs1 ++ matchLicenseFile patterns fs2)
  /\ (getLicenseFile patterns files = Err ErrNoLicenseFile <->
      matchLicenseFile patterns files = [])
  /\ (matchLicenseFile patterns files <> [] ->
      getLicenseFile patterns files = Ok (matchLicenseFile patterns files))
  /\ (forall lit f,
        MatchString (ReFold (map ReLit lit ++ [ReDotStar])) f = hasFoldPrefix lit f
        /\ MatchString (ReFold (map ReLit lit)) f = hasFoldPrefix lit f)
  /\ (forall items f f',
        (forall c, In (ReLit c) items -> c <= 127) ->
        sameUpToCase f f' ->
        MatchString (ReFold items) f = MatchString (ReFold items) f')
  /\ (forall c items f,
        MatchString (ReFold (ReLit c :: items)) f = true ->
        exists d rest, f = d :: rest /\ foldEq c d = true).
Proof.
  repeat match goal with |- _ /\ _ => split end.
  - apply matchLicenseFile_locate.
  - intro f. rewrite matchLicenseFile_locate. apply locate_In.
  - intro f. rewrite matchLicenseFile_locate. apply locate_count.
  - intros fs1 fs2 ->. rewrite !matchLicenseFile_locate. apply locate_app.
  - unfold getLicenseFile. destruct (matchLicenseFile patterns files); simpl.
    + tauto.
    + split; discriminate.
  - unfold getLicenseFile. destruct (matchLicenseFile patterns files); simpl.
    + intro H. now contradiction H.
    + reflexivity.
  - intros lit f. simpl. split; [apply matchItems_lits_star | apply matchItems_lits].
  - intros items f f' Hc H. simpl. now apply matchItems_sameCase.
  - intros c items f H. simpl in H. destruct f as [|d rest]; [discriminate|].
    apply andb_true_iff in H as [H _]. eauto.
Qed.


(** ** Properties of the directory scan *)

Lemma foldEq_same_letter (c1 c2 d : rune) :
  c1 <= 127 -> c2 <= 127 ->
  foldEq c1 d = true -> foldEq c2 d = true ->
  asciiLower c1 = asciiLower c2.
Proof.
  intros H1 H2. unfold foldEq.
  apply Z.leb_le in H1, H2. rewrite H1, H2. apply Z.leb_le in H1, H2.
  assert (L1 : asciiLower c1 <= 127).
  { unfold asciiLower. destruct ((65 <=? c1) && (c1 <=? 90)) eqn:A; [|lia].
    apply andb_true_iff in A as [_ A]. apply Z.leb_le in A. lia. }
  assert (L2 : asciiLower c2 <= 127).
  { unfold asciiLower. destruct ((65 <=? c2) && (c2 <=? 90)) eqn:A; [|lia].
    apply andb_true_iff in A as [_ A]. apply Z.leb_le in A. lia. }
  assert (Ld : 127 < d -> asciiLower d = d).
  { unfold asciiLower. intro. destruct ((65 <=? d) && (d <=? 90)) eqn:A; [|lia].
    apply andb_true_iff in A as [_ A]. apply Z.leb_le in A. lia. }
  rewrite !orb_true_iff, !andb_true_iff, !Z.eqb_eq. lia.
Qed.

Lemma hasFoldPrefix_agree (a b s : gostring) :
  Forall (fun c => c <= 127) a -> Forall (fun c => c <= 127) b ->
  hasFoldPrefix a s = true -> hasFoldPrefix b s = true ->
  agreeLower a b = true.
Proof.
  revert b s. induction a as [|c a IH]; intros [|d b] [|e s] Fa Fb Ha Hb;
    simpl in *; try reflexivity; try discriminate.
  inversion Fa; inversion Fb; subst.
  apply andb_true_iff in Ha as [Hc Ha], Hb as [Hd Hb].
  rewrite (foldEq_same_letter c d e) by assumption.
  rewrite Z.eqb_refl. simpl. eapply IH; eauto.
Qed.

Lemma asciiLiteral (lit : string) :
  forallb (fun c => c <=? 127) (str lit) = true ->
  Forall (fun c => c <= 127) (str lit).
Proof.
  intro H. apply Forall_forall. intros c Hin.
  rewrite forallb_forall in H. apply Z.leb_le. now apply H.
Qed.

(** A name starts with at most one of the default names. *)
Lemma default_names_exclusive (a b : string) (s : gostring) :
  forallb (fun c => c <=? 127) (str a) = true ->
  forallb (fun c => c <=? 127) (str b) = true ->
  agreeLower (str a) (str b) = false ->
  hasFoldPrefix (str a) s = true -> hasFoldPrefix (str b) s = false.
Proof.
  intros Fa Fb N Ha. destruct (hasFoldPrefix (str b) s) eqn:Hb; [|reflexivity].
  rewrite (hasFoldPrefix_agree (str a) (str b) s) in N;
    auto using asciiLiteral.
Qed.

Lemma default_matches (f : gostring) :
  flat_map (fun p => if MatchString p f then [f] else []) defaultPatterns
  = if isLicenseName f then [f] else [].
Proof.
  unfold defaultPatterns, isLicenseName. cbn [flat_map existsb MatchString].
  rewrite !matchItems_lits_star, matchItems_lits.
  destruct (hasFoldPrefix (str "license") f) eqn:H1.
  - rewrite (default_names_exclusive "license" "licence" f),
            (default_names_exclusive "license" "copying" f),
            (default_names_exclusive "license" "unlicense" f) by (trivial; reflexivity).
    reflexivity.
  - destruct (hasFoldPrefix (str "licence") f) eqn:H2.
    + rewrite (default_names_exclusive "licence" "copying" f),
              (default_names_exclusive "licence" "unlicense" f) by (trivial; reflexivity).
      reflexivity.
    + destruct (hasFoldPrefix (str "copying") f) eqn:H3.
      * rewrite (default_names_exclusive "copying" "unlicense" f) by (trivial; reflexivity).
        reflexivity.
      * now destruct (hasFoldPrefix (str "unlicense") f).
Qed.

(** With the default patterns the matches are the candidate names of the
    listing, each once. *)
Lemma matchLicenseFile_default (files : list gostring) :
  matchLicenseFile defaultPatterns files = filter isLicenseName files.
Proof.
  rewrite matchLicenseFile_locate. unfold locate.
  induction files as [|f fs IH]; [reflexivity|].
  cbn [flat_map filter]. rewrite IH, default_matches.
  now destruct (isLicenseName f).
Qed.

Lemma guessFromDir_step_spec (dir name : gostring) (licenses : list License) :
  guessFromDir_step dir licenses name
  = licenses ++ optionToList (classifyFile dir name).
Proof.
  unfold guessFromDir_step, NewFromFile, classifyFile.
  destruct (ioutil_ReadFile (filepath_Join dir name)) as [text|err]; simpl.
  - rewrite GuessType_classify. simpl.
    destruct (classify text) as [t|] eqn:C; simpl.
    + rewrite GuessType_classify. simpl. rewrite C. reflexivity.
    + now rewrite app_nil_r.
  - now rewrite app_nil_r.
Qed.

Lemma guessFromDir_loop (dir : gostring) (matchs : list gostring) (licenses : list License) :
  fold_left (guessFromDir_step dir) matchs licenses
  = licenses ++ flat_map (fun name => optionToList (classifyFile dir name)) matchs.
Proof.
  revert licenses. induction matchs as [|m ms IH]; intro licenses; simpl.
  - now rewrite app_nil_r.
  - rewrite IH, guessFromDir_step_spec. now rewrite <- app_assoc.
Qed.

(** What [guessFromDir] returns once the listing has been read. *)
Lemma guessFromDir_listing (dir : gostring) (fileinfos : list FileInfo) :
  ioutil_ReadDir dir = inl fileinfos ->
  guessFromDir dir =
  match filter isLicenseName (map Name fileinfos) with
  | [] => Err ErrNoLicenseFile
  | candidates =>
      match flat_map (fun name => optionToList (classifyFile dir name)) candidates with
      | [] => Err ErrUnrecognizedLicense
      | found => Ok found
      end
  end.
Proof.
  intro H. unfold guessFromDir, readDirectory. rewrite H, complile_default.
  unfold getLicenseFile. rewrite matchLicenseFile_default.
  destruct (filter isLicenseName (map Name fileinfos)) as [|c cs]; [reflexivity|].
  cbn [List.length Nat.eqb]. rewrite guessFromDir_loop. cbn [app].
  now destruct (flat_map _ (c :: cs)).
Qed.

Lemma guessFromDir_nonempty (dir : gostring) (ls : list License) :
  guessFromDir dir = Ok ls -> ls <> [].
Proof.
  unfold guessFromDir.
  destruct (readDirectory dir); [|discriminate].
  destruct (complileLicensePatters DefaultLicenseFiles); [|discriminate].
  destruct (getLicenseFile _ _); [|discriminate].
  destruct (fold_left _ _ _) as [|l ls'] eqn:F; simpl; [discriminate|].
  intro H. injection H as <-. discriminate.
Qed.

(** C3 (amended): when the directory listing cannot be read, the scan
    fails with the error of the operating system, handed on unchanged;
    when the listing is read and no filename in it matches a default
    pattern, the scan fails with the no-license-file error. Both variants,
    [NewFromDir] and [NewLicencesFromDir], fail the same way. *)
Theorem C3_scan_errors (dir : gostring) :
  (forall e, ioutil_ReadDir dir = inr e ->
             guessFromDir dir = Err (IOError e)
             /\ NewLicencesFromDir dir = Err (IOError e)
             /\ NewFromDir dir = Some (Err (IOError e)))
  /\ (forall fileinfos,
        ioutil_ReadDir dir = inl fileinfos ->
        (forall fi, In fi fileinfos -> isLicenseName (Name fi) = false) ->
        guessFromDir dir = Err ErrNoLicenseFile
        /\ NewLicencesFromDir dir = Err ErrNoLicenseFile
        /\ NewFromDir dir = Some (Err ErrNoLicenseFile)).
Proof.
  split.
  - intros e H.
    assert (G : guessFromDir dir = Err (IOError e)).
    { unfold guessFromDir, readDirectory. now rewrite H. }
    unfold NewLicencesFromDir, NewFromDir. now rewrite G.
  - intros fileinfos H Hno.
    assert (G : guessFromDir dir = Err ErrNoLicenseFile).
    { rewrite (guessFromDir_listing dir fileinfos H).
      replace (filter isLicenseName (map Name fileinfos)) with (@nil gostring);
        [reflexivity|].
      symmetry. clear H. induction fileinfos as [|fi fis IH]; simpl; [reflexivity|].
      rewrite (Hno fi (or_introl eq_refl)). apply IH.
      intros fi' Hin. apply Hno. now right. }
    unfold NewLicencesFromDir, NewFromDir. now rewrite G.
Qed.

(** C4: during a scan a candidate file that cannot be read or whose
    content is not classified is skipped without ending the scan; the
    scan returns the entities of the candidates that were read and
    classified, in the order of the directory listing, and fails with the
    unrecognized-license error when there is none. *)
Theorem C4_scan_skips_failures (dir : gostring) (fileinfos : list FileInfo) :
  ioutil_ReadDir dir = inl fileinfos ->
  let candidates := filter isLicenseName (map Name fileinfos) in
  let found := flat_map (fun name => optionToList (classifyFile dir name)) candidates in
  candidates <> [] ->
  (guessFromDir dir =
   match found with
   | [] => Err ErrUnrecognizedLicense
   | _ :: _ => Ok found
   end)
  /\ (forall name,
        classifyFile dir name = None <->
        (exists err, ioutil_ReadFile (filepath_Join dir name) = inr err)
        \/ (exists text, ioutil_ReadFile (filepath_Join dir name) = inl text
                         /\ classify text = None))
  /\ (forall name l,
        classifyFile dir name = Some l ->
        exists t, ioutil_ReadFile (filepath_Join dir name) = inl (Text l)
                  /\ classify (Text l) = Some t /\ Type_ l = t
                  /\ File l = filepath_Join dir name).
Proof.
  intros H candidates found Hne. split; [|split].
  - rewrite (guessFromDir_listing dir fileinfos H). fold candidates.
    destruct candidates as [|c cs] eqn:E; [now contradiction Hne|].
    fold found. now destruct found.
  - intro name. unfold classifyFile.
    destruct (ioutil_ReadFile (filepath_Join dir name)) as [text|err].
    + destruct (classify text) as [t|] eqn:C.
      * split; [discriminate|]. intros [[err He]|[text' [He C']]]; [discriminate|].
        injection He as <-. congruence.
      * split; trivial. intros _. right. eauto.
    + split; trivial. intros _. left. eauto.
  - intros name l. unfold classifyFile.
    destruct (ioutil_ReadFile (filepath_Join dir name)) as [text|err]; [|discriminate].
    destruct (classify text) as [t|] eqn:C; [|discriminate].
    intro Hl. injection Hl as <-. simpl. eauto.
Qed.

(** C9: when the scan for all licenses succeeds, its sequence is not
    empty and [NewFromDir] returns the first entity of it; [NewFromDir]
    fails exactly when that scan fails, with the same error, and never
    indexes an empty sequence. *)
Theorem C9_NewFromDir_first (dir : gostring) :
  (forall ls, NewLicencesFromDir dir = Ok ls ->
              exists l rest, ls = l :: rest /\ NewFromDir dir = Some (Ok l))
  /\ (forall e, NewLicencesFromDir dir = Err e <-> NewFromDir dir = Some (Err e))
  /\ NewFromDir dir <> None.
Proof.
  unfold NewLicencesFromDir, NewFromDir.
  destruct (guessFromDir dir) as [ls|e0] eqn:G.
  - pose proof (guessFromDir_nonempty dir ls G) as Hne.
    destruct ls as [|l rest]; [now contradiction Hne|].
    split; [|split].
    + intros ls' H. injection H as <-. eauto.
    + intro e. split; discriminate.
    + discriminate.
  - split; [|split].
    + discriminate.
    + intro e. split; intro H; injection H as <-; reflexivity.
    + discriminate.
Qed.


(** ** Properties of the two replacements *)

Lemma newline_LF (t : gostring) :
  newlineRegexp_ReplaceAll (LF :: t) [SP] = SP :: newlineRegexp_ReplaceAll t [SP].
Proof.
  destruct t; reflexivity.
Qed.

(** One step of the replacement of line endings, by the first rune. *)
Lemma newline_cons (c : rune) (t : gostring) :
  newlineRegexp_ReplaceAll (c :: t) [SP]
  = if c =? LF then SP :: newlineRegexp_ReplaceAll t [SP]
    else if (c =? CR) && headIs LF t then newlineRegexp_ReplaceAll t [SP]
         else c :: newlineRegexp_ReplaceAll t [SP].
Proof.
  destruct (Z.eqb_spec c LF) as [->|NLF]; [apply newline_LF|].
  destruct t as [|d t].
  - simpl. apply Z.eqb_neq in NLF. rewrite NLF, andb_false_r. reflexivity.
  - cbn [newlineRegexp_ReplaceAll headIs].
    destruct ((c =? CR) && (d =? LF)) eqn:E.
    + apply andb_true_iff in E as [_ E]. apply Z.eqb_eq in E. subst d.
      symmetry. apply newline_LF.
    + apply Z.eqb_neq in NLF. now rewrite NLF.
Qed.

Lemma headIs_app (c : rune) (x z : gostring) :
  headIs c (x ++ z) = match x with [] => headIs c z | _ :: _ => headIs c x end.
Proof.
  now destruct x.
Qed.

Lemma newline_app (x z : gostring) :
  headIs LF z = false ->
  newlineRegexp_ReplaceAll (x ++ z) [SP]
  = newlineRegexp_ReplaceAll x [SP] ++ newlineRegexp_ReplaceAll z [SP].
Proof.
  intro Hz. induction x as [|c x IH]; [reflexivity|].
  rewrite <- app_comm_cons, !newline_cons, IH, headIs_app.
  destruct x as [|d x].
  - rewrite Hz. cbn [headIs]. rewrite andb_false_r. now destruct (c =? LF).
  - now destruct (c =? LF), ((c =? CR) && headIs LF (d :: x)).
Qed.

Lemma newline_before (x y : gostring) :
  newlineRegexp_ReplaceAll (x ++ LF :: y) [SP]
  = newlineBefore x ++ SP :: newlineRegexp_ReplaceAll y [SP].
Proof.
  induction x as [|c x IH].
  - apply newline_LF.
  - rewrite <- app_comm_cons, newline_cons, IH, headIs_app. cbn [newlineBefore].
    destruct (c =? LF); [reflexivity|].
    destruct x as [|d x]; cbn [headIs]; rewrite ?Z.eqb_refl;
      now destruct ((c =? CR) && _).
Qed.


Lemma newline_without_LF (s : gostring) :
  ~ In LF s -> newlineRegexp_ReplaceAll s [SP] = s.
Proof.
  induction s as [|c s IH]; intro H; [reflexivity|].
  rewrite newline_cons.
  destruct (Z.eqb_spec c LF) as [->|N]; [exfalso; apply H; now left|].
  assert (Hs : ~ In LF s) by (intro; apply H; now right).
  rewrite (IH Hs).
  destruct s as [|d s]; cbn [headIs]; [now rewrite andb_false_r|].
  destruct (Z.eqb_spec d LF) as [->|]; [exfalso; apply Hs; now left|].
  now rewrite andb_false_r.
Qed.

Lemma newline_In (c : rune) (s : gostring) :
  In c (newlineRegexp_ReplaceAll s [SP]) -> c = SP \/ (In c s /\ c <> LF).
Proof.
  induction s as [|d s IH]; [intros []|].
  rewrite newline_cons.
  destruct (Z.eqb_spec d LF) as [->|N].
  - intros [<-|H]; [now left|]. destruct (IH H) as [->|[Hin Hc]]; [now left|].
    right. split; [now right|exact Hc].
  - destruct ((d =? CR) && headIs LF s).
    + intro H. destruct (IH H) as [->|[Hin Hc]]; [now left|].
      right. split; [now right|exact Hc].
    + intros [<-|H]; [right; split; [now left|exact N]|].
      destruct (IH H) as [->|[Hin Hc]]; [now left|].
      right. split; [now right|exact Hc].
Qed.

Lemma headIsSpace_app (x z : gostring) :
  headIsSpace (x ++ z) = match x with [] => headIsSpace z | _ :: _ => headIsSpace x end.
Proof.
  now destruct x.
Qed.

Lemma space_true_false (s : gostring) :
  headIsSpace s = false -> spaceRegexp_scan true s [SP] = spaceRegexp_scan false s [SP].
Proof.
  destruct s as [|c s]; [reflexivity|]. simpl. now intros ->.
Qed.



Lemma space_head (s : gostring) :
  headIsSpace (spaceRegexp_scan true s [SP]) = false.
Proof.
  induction s as [|c s IH]; [reflexivity|].
  cbn [spaceRegexp_scan]. destruct (isSpace c) eqn:Hc; [exact IH|].
  cbn [headIsSpace]. exact Hc.
Qed.

Lemma space_head_false (s : gostring) :
  headIsSpace s = false -> headIsSpace (spaceRegexp_scan false s [SP]) = false.
Proof.
  destruct s as [|c s]; [reflexivity|]. simpl. intro H. rewrite H. simpl. exact H.
Qed.

Lemma space_noSpaceRun (b : bool) (s : gostring) :
  noSpaceRun (spaceRegexp_scan b s [SP]) = true.
Proof.
  revert b. induction s as [|c s IH]; intro b; [reflexivity|].
  cbn [spaceRegexp_scan]. destruct (isSpace c) eqn:Hc.
  - destruct b; [apply IH|].
    destruct (headIsSpace s) eqn:Hs.
    + cbn [app noSpaceRun]. rewrite space_head, andb_false_r, IH. reflexivity.
    + cbn [noSpaceRun]. rewrite (space_head_false s Hs), andb_false_r, IH. reflexivity.
  - cbn [noSpaceRun]. rewrite Hc, IH. reflexivity.
Qed.

Lemma space_In (c : rune) (b : bool) (s : gostring) :
  In c (spaceRegexp_scan b s [SP]) -> c = SP \/ In c s.
Proof.
  revert b. induction s as [|d s IH]; intro b; [intros []|].
  cbn [spaceRegexp_scan].
  destruct (isSpace d).
  - destruct b.
    + intro H. destruct (IH _ H); [now left | right; now right].
    + destruct (headIsSpace s).
      * intros [<-|H]; [now left|]. destruct (IH _ H); [now left | right; now right].
      * intros [<-|H]; [right; now left|]. destruct (IH _ H); [now left | right; now right].
  - intros [<-|H]; [right; now left|]. destruct (IH _ H); [now left | right; now right].
Qed.

Lemma space_app (b : bool) (x z : gostring) :
  lastIsSpace x = false -> x <> [] \/ b = false ->
  spaceRegexp_scan b (x ++ z) [SP]
  = spaceRegexp_scan b x [SP] ++ spaceRegexp_scan false z [SP].
Proof.
  revert b. induction x as [|c x IH]; intros b Hl Hb.
  - destruct Hb as [Hb| ->]; [now contradiction Hb | reflexivity].
  - rewrite <- app_comm_cons. cbn [spaceRegexp_scan]. rewrite headIsSpace_app.
    destruct x as [|d x].
    + cbn [lastIsSpace] in Hl. rewrite Hl. reflexivity.
    + assert (Hl' : lastIsSpace (d :: x) = false) by exact Hl.
      assert (Hne : d :: x <> [] \/ true = false) by (left; discriminate).
      assert (Hne' : d :: x <> [] \/ false = false) by (now right).
      rewrite (IH true Hl' Hne), (IH false Hl' Hne').
      destruct (isSpace c), b, (headIsSpace (d :: x)); reflexivity.
Qed.

Lemma space_skip_run (run y : gostring) :
  Forall (fun c => isSpace c = true) run -> headIsSpace y = false ->
  spaceRegexp_scan true (run ++ y) [SP] = spaceRegexp_scan false y [SP].
Proof.
  intros Hr Hy. induction Hr as [|c run Hc _ IH].
  - now apply space_true_false.
  - cbn [app spaceRegexp_scan]. now rewrite Hc.
Qed.

(** A run of two or more whitespace runes becomes one space. *)
Lemma space_run (x run y : gostring) :
  lastIsSpace x = false -> headIsSpace y = false ->
  Forall (fun c => isSpace c = true) run -> (2 <= List.length run)%nat ->
  spaceRegexp_ReplaceAll (x ++ run ++ y) [SP]
  = spaceRegexp_ReplaceAll x [SP] ++ SP :: spaceRegexp_ReplaceAll y [SP].
Proof.
  intros Hx Hy Hr Hlen. unfold spaceRegexp_ReplaceAll.
  rewrite (space_app false x _ Hx) by (now right). f_equal.
  destruct run as [|c [|d run]]; simpl in Hlen; try lia.
  inversion Hr as [|? ? Hc Hr']; subst.
  cbn [app spaceRegexp_scan headIsSpace]. rewrite Hc.
  inversion Hr' as [|? ? Hd Hr'']; subst. rewrite Hd. cbn [app]. f_equal.
  now apply (space_skip_run run y).
Qed.

(** A whitespace rune standing alone is kept. *)
Lemma space_single (x y : gostring) (w : rune) :
  lastIsSpace x = false -> headIsSpace y = false ->
  spaceRegexp_ReplaceAll (x ++ w :: y) [SP]
  = spaceRegexp_ReplaceAll x [SP] ++ w :: spaceRegexp_ReplaceAll y [SP].
Proof.
  intros Hx Hy. unfold spaceRegexp_ReplaceAll.
  rewrite (space_app false x _ Hx) by (now right). f_equal.
  cbn [spaceRegexp_scan]. rewrite Hy. now destruct (isSpace w).
Qed.

Lemma unicode_ToLower_ascii (r : rune) :
  r <= 127 -> unicode_ToLower r = asciiLower r.
Proof.
  intro H. unfold unicode_ToLower, asciiLower. apply Z.leb_le in H. now rewrite H.
Qed.

Lemma asciiLower_not_upper (r : rune) : ~ (65 <= asciiLower r <= 90).
Proof.
  unfold asciiLower. destruct ((65 <=? r) && (r <=? 90)) eqn:A.
  - apply andb_true_iff in A as [A B]. apply Z.leb_le in A, B. lia.
  - apply andb_false_iff in A as [A|A]; apply Z.leb_gt in A; lia.
Qed.

Lemma normalize_In (text : gostring) (c : rune) :
  In c (normalize text) ->
  c <> LF /\ (c = SP \/ exists r, In r text /\ c = unicode_ToLower r).
Proof.
  unfold normalize, spaceRegexp_ReplaceAll, strings_ToLower.
  change (str " ") with [SP]. intro H.
  apply space_In in H as [->|H]; [split; [discriminate | now left]|].
  apply newline_In in H as [->|[H N]]; [split; [discriminate | now left]|].
  split; [exact N|]. right. apply in_map_iff in H as (r & <- & Hr). eauto.
Qed.

(** C7: the normalisation folds every rune to lower case, replaces every
    line ending, CRLF or LF, with one space, and collapses every run of two
    or more whitespace runes into one space; it is a function of the text
    alone, defined on every text. *)
Theorem C7_normalize (text : gostring) :
  let lower := strings_ToLower text in
  let joined := newlineRegexp_ReplaceAll lower (str " ") in
  normalize text = spaceRegexp_ReplaceAll joined (str " ")
  /\ lower = map unicode_ToLower text
  /\ (forall r, r <= 127 ->
                unicode_ToLower r = if (65 <=? r) && (r <=? 90) then r + 32 else r)
  /\ (forall c, In c (normalize text) ->
                c = SP \/ exists r, In r text /\ c = unicode_ToLower r)
  /\ (Forall (fun r => r <= 127) text ->
      Forall (fun c => ~ (65 <= c <= 90)) (normalize text))
  /\ ~ In LF (normalize text)
  /\ noSpaceRun (normalize text) = true
  /\ (forall x y, lower = x ++ CR :: LF :: y ->
                  joined = newlineRegexp_ReplaceAll x (str " ")
                           ++ SP :: newlineRegexp_ReplaceAll y (str " "))
  /\ (forall x y, lower = x ++ LF :: y -> lastIs CR x = false ->
                  joined = newlineRegexp_ReplaceAll x (str " ")
                           ++ SP :: newlineRegexp_ReplaceAll y (str " "))
  /\ (~ In LF lower -> joined = lower)
  /\ (forall x run y,
        joined = x ++ run ++ y ->
        lastIsSpace x = false -> headIsSpace y = false ->
        Forall (fun c => isSpace c = true) run -> (2 <= List.length run)%nat ->
        normalize text = spaceRegexp_ReplaceAll x (str " ")
                         ++ SP :: spaceRegexp_ReplaceAll y (str " "))
  /\ (forall x w y,
        joined = x ++ w :: y ->
        lastIsSpace x = false -> headIsSpace y = false ->
        normalize text = spaceRegexp_ReplaceAll x (str " ")
                         ++ w :: spaceRegexp_ReplaceAll y (str " ")).
Proof.
  intros lower joined. change (str " ") with [SP] in *.
  repeat match goal with |- _ /\ _ => split end.
  - reflexivity.
  - reflexivity.
  - intros r Hr. now rewrite unicode_ToLower_ascii.
  - intros c H. now apply normalize_In in H.
  - intro Ha. apply Forall_forall. intros c H.
    apply normalize_In in H as [_ [->|(r & Hr & ->)]]; [unfold SP; lia|].
    rewrite Forall_forall in Ha. rewrite unicode_ToLower_ascii by auto.
    apply asciiLower_not_upper.
  - intro H. now apply normalize_In in H as [N _].
  - apply space_noSpaceRun.
  - intros x y E. unfold joined. rewrite E, newline_app by reflexivity.
    reflexivity.
  - intros x y E Hx. unfold joined. rewrite E, newline_before. f_equal.
    clear E. induction x as [|c x IH]; [reflexivity|].
    rewrite newline_cons. cbn [newlineBefore].
    destruct (c =? LF); [f_equal; apply IH; now destruct x|].
    destruct x as [|d x].
    + cbn [lastIs] in Hx. rewrite Hx. reflexivity.
    + cbn [headIs]. rewrite IH by exact Hx. reflexivity.
  - intro H. now apply newline_without_LF.
  - intros x run y E Hx Hy Hr Hlen.
    change (normalize text) with (spaceRegexp_ReplaceAll joined [SP]).
    rewrite E. now apply space_run.
  - intros x w y E Hx Hy.
    change (normalize text) with (spaceRegexp_ReplaceAll joined [SP]).
    rewrite E. now apply space_single.
Qed.


(** ** Invariance of the classification *)

Lemma scan_nil (s : gostring) : scan s [] = true.
Proof.
  now destruct s.
Qed.

(** A phrase that does not start with whitespace is found in a text
    exactly when it is found after the leading whitespace of the text. *)
Lemma scan_skipSpaces (p s : gostring) :
  headIsSpace p = false -> scan (skipSpaces s) p = scan s p.
Proof.
  intro Hp. destruct p as [|d p]; [now rewrite !scan_nil|].
  cbn [headIsSpace] in Hp.
  induction s as [|c s IH]; [reflexivity|].
  cbn [skipSpaces]. destruct (isSpace c) eqn:Hc; [|reflexivity].
  rewrite IH. unfold scan. cbn [strings_Contains strings_HasPrefix].
  destruct (Z.eqb_spec d c) as [->|]; [congruence|reflexivity].
Qed.



Lemma ruleTable_phrases :
  forallb (fun r => forallb goodPhrase (fst r)) ruleTable = true.
Proof.
  vm_compute. reflexivity.
Qed.






Lemma lastIsSpace_cons (d e : rune) (p : gostring) :
  lastIsSpace (d :: e :: p) = lastIsSpace (e :: p).
Proof.
  reflexivity.
Qed.

Lemma HasPrefix_spaces (tail q : gostring) :
  q <> [] -> lastIsSpace q = false ->
  Forall (fun c => isSpace c = true) tail ->
  strings_HasPrefix tail q = false.
Proof.
  revert q. induction tail as [|v tail IH]; intros q Hne Hq Ht.
  - destruct q; [now contradiction Hne | reflexivity].
  - destruct q as [|f q]; [now contradiction Hne|]. cbn [strings_HasPrefix].
    inversion Ht as [|? ? Hv Ht']; subst.
    destruct q as [|g q].
    + cbn [lastIsSpace] in Hq.
      destruct (Z.eqb_spec f v) as [->|]; [congruence|reflexivity].
    + rewrite lastIsSpace_cons in Hq.
      rewrite (IH (g :: q)) by (trivial; discriminate).
      apply andb_false_r.
Qed.

(** A phrase that ends with a rune other than whitespace does not reach
    into the whitespace at the end of a text. *)
Lemma HasPrefix_spaceTail (p s tail : gostring) :
  p <> [] -> lastIsSpace p = false ->
  Forall (fun c => isSpace c = true) tail ->
  strings_HasPrefix (s ++ tail) p = strings_HasPrefix s p.
Proof.
  intros Hne Hl Ht. revert s Hne Hl. induction p as [|d p IH]; intros s Hne Hl.
  - now contradiction Hne.
  - destruct s as [|c s].
    + cbn [app]. rewrite (HasPrefix_spaces tail (d :: p)) by assumption.
      reflexivity.
    + cbn [app strings_HasPrefix]. destruct p as [|e p]; [reflexivity|].
      rewrite lastIsSpace_cons in Hl. rewrite IH; [reflexivity|discriminate|exact Hl].
Qed.

Lemma scan_spaceTail (p core tail : gostring) :
  goodPhrase p = true ->
  Forall (fun c => isSpace c = true) tail ->
  scan (core ++ tail) p = scan core p.
Proof.
  intros Hp Ht. destruct p as [|d p]; [discriminate|].
  apply andb_true_iff in Hp as [_ Hl]. apply negb_true_iff in Hl.
  assert (Hne : d :: p <> []) by discriminate.
  unfold scan. induction core as [|c core IH].
  - cbn [app]. change (strings_Contains [] (d :: p)) with false.
    induction Ht as [|w tail Hw Ht IHt]; [reflexivity|].
    cbn [strings_Contains]. rewrite IHt.
    rewrite (HasPrefix_spaces (w :: tail) (d :: p) Hne Hl) by (now constructor).
    reflexivity.
  - cbn [app strings_Contains].
    change (c :: core ++ tail) with ((c :: core) ++ tail).
    rewrite (HasPrefix_spaceTail (d :: p) (c :: core) tail Hne Hl Ht), IH.
    reflexivity.
Qed.



Lemma newline_plain (c : rune) (t : gostring) :
  c <> LF -> c <> CR ->
  newlineRegexp_ReplaceAll (c :: t) [SP] = c :: newlineRegexp_ReplaceAll t [SP].
Proof.
  intros H1 H2. rewrite newline_cons.
  apply Z.eqb_neq in H1, H2. now rewrite H1, H2.
Qed.











Lemma normalize_squash (text : gostring) : normalize text = squash (map unicode_ToLower text).
Proof.
  reflexivity.
Qed.












(** ** Literal containment *)

Lemma HasPrefix_iff (s p : gostring) :
  strings_HasPrefix s p = true <-> exists b, s = p ++ b.
Proof.
  revert s. induction p as [|c p IH]; intro s.
  - split; [intros _; now exists s | reflexivity].
  - destruct s as [|d s]; cbn [strings_HasPrefix].
    + split; [discriminate | intros (b & E); discriminate E].
    + rewrite andb_true_iff, Z.eqb_eq, IH. split.
      * intros (-> & b & ->). now exists b.
      * intros (b & E). injection E as -> ->. split; [reflexivity | now exists b].
Qed.

Lemma Contains_iff (s p : gostring) :
  strings_Contains s p = true <-> exists a b, s = a ++ p ++ b.
Proof.
  induction s as [|c s IH]; cbn [strings_Contains].
  - rewrite orb_false_r, HasPrefix_iff. split.
    + intros (b & E). now exists [], b.
    + intros (a & b & E). destruct a as [|x a]; [|discriminate E]. now exists b.
  - rewrite orb_true_iff, HasPrefix_iff, IH. split.
    + intros [(b & E)|(a & b & E)].
      * now exists [], b.
      * exists (c :: a), b. now rewrite E.
    + intros (a & b & E). destruct a as [|x a].
      * left. now exists b.
      * right. injection E as _ E. now exists a, b.
Qed.

Lemma Contains_length (s p : gostring) :
  strings_Contains s p = true -> (List.length p <= List.length s)%nat.
Proof.
  intro H. apply Contains_iff in H as (a & b & ->).
  rewrite !length_app. lia.
Qed.

(** X1: [scan] finds a match exactly when the text is the match with
    something before and something after it; the empty match is found in
    every text, and a match longer than the text is never found. *)
Theorem X1_scan_is_containment (text match_ : gostring) :
  (scan text match_ = true <-> exists a b, text = a ++ match_ ++ b)
  /\ scan text [] = true
  /\ ((List.length text < List.length match_)%nat -> scan text match_ = false)
  /\ (forall a b, scan text match_ = true -> scan (a ++ text ++ b) match_ = true).
Proof.
  unfold scan. split; [apply Contains_iff|]. split; [now destruct text|]. split.
  - intro H. destruct (strings_Contains text match_) eqn:E; [|reflexivity].
    apply Contains_length in E. lia.
  - intros a b H. apply Contains_iff in H as (a' & b' & ->).
    apply Contains_iff. exists (a ++ a'), (b' ++ b). now rewrite <- !app_assoc.
Qed.

(** ** More on [GuessType] *)

(** X2: [GuessType] reads the text of the entity only and writes its type
    only: the text and the file stay as they are, the outcome is the same
    for two entities with the same text whatever their type and file, and
    a second call on the result changes nothing and returns the same
    error. *)
Theorem X2_GuessType_frame (l : License) :
  Text (fst (GuessType l)) = Text l
  /\ File (fst (GuessType l)) = File l
  /\ GuessType (fst (GuessType l)) = (fst (GuessType l), snd (GuessType l))
  /\ (forall l', Text l' = Text l ->
                 snd (GuessType l') = snd (GuessType l)
                 /\ (snd (GuessType l) = None ->
                     Type_ (fst (GuessType l')) = Type_ (fst (GuessType l)))).
Proof.
  unfold GuessType.
  destruct (guessSwitch (normalize (Text l))) as [t|] eqn:G; cbn [fst snd].
  - split; [reflexivity|]. split; [reflexivity|]. split.
    + cbn [setType Text]. now rewrite G.
    + intros l' E. rewrite E, G. split; reflexivity.
  - split; [reflexivity|]. split; [reflexivity|]. split.
    + now rewrite G.
    + intros l' E. rewrite E, G. cbn [snd]. split; [reflexivity|discriminate].
Qed.

Lemma ruleTable_reachable :
  forallb (fun r => match firstMatch (normalize (ruleText r)) with
                    | Some t => gostring_eqb t (snd r)
                    | None => false
                    end) ruleTable = true.
Proof.
  vm_compute. reflexivity.
Qed.

Lemma KnownLicenses_assigned :
  forallb (fun t => existsb (fun r => gostring_eqb (snd r) t) ruleTable) KnownLicenses = true.
Proof.
  vm_compute. reflexivity.
Qed.

(** X3: every rule of the switch can fire, on the text made of its own
    phrases, so no case is shadowed by the cases before it; and the
    identifiers that [GuessType] can assign are exactly those of
    [KnownLicenses]. *)
Theorem X3_every_rule_fires :
  (forall r, In r ruleTable ->
             GuessType (New [] (ruleText r)) = (New (snd r) (ruleText r), None))
  /\ (forall t, In t KnownLicenses <->
                exists text, GuessType (New [] text) = (New t text, None)).
Proof.
  assert (A : forall r, In r ruleTable ->
                        GuessType (New [] (ruleText r)) = (New (snd r) (ruleText r), None)).
  { intros r Hr. rewrite GuessType_classify. unfold classify. cbn [Text New].
    pose proof ruleTable_reachable as T. rewrite forallb_forall in T.
    specialize (T r Hr).
    destruct (firstMatch (normalize (ruleText r))) as [t|]; [|discriminate].
    apply gostring_eqb_eq in T. now subst t. }
  split; [exact A|]. intro t. split.
  - intro Ht. pose proof KnownLicenses_assigned as K. rewrite forallb_forall in K.
    specialize (K t Ht). apply existsb_exists in K as (r & Hr & E).
    apply gostring_eqb_eq in E. subst t. exists (ruleText r). now apply A.
  - intros (text & H). unfold GuessType in H.
    destruct (guessSwitch (normalize (Text (New [] text)))) as [t'|] eqn:G;
      [|discriminate].
    injection H as <-. now apply guessSwitch_known in G.
Qed.

Lemma newline_length (s : gostring) :
  (List.length (newlineRegexp_ReplaceAll s [SP]) <= List.length s)%nat.
Proof.
  induction s as [|c s IH]; [reflexivity|].
  rewrite newline_cons.
  destruct (c =? LF); [cbn [List.length]; lia|].
  destruct ((c =? CR) && headIs LF s); cbn [List.length]; lia.
Qed.

Lemma space_length (b : bool) (s : gostring) :
  (List.length (spaceRegexp_scan b s [SP]) <= List.length s)%nat.
Proof.
  revert b. induction s as [|c s IH]; intro b; [reflexivity|].
  cbn [spaceRegexp_scan].
  pose proof (IH true) as T. pose proof (IH false) as F.
  destruct (isSpace c); [destruct b; [|destruct (headIsSpace s)]|];
    cbn [List.length app]; lia.
Qed.

Lemma normalize_length (text : gostring) :
  (List.length (normalize text) <= List.length text)%nat.
Proof.
  unfold normalize, spaceRegexp_ReplaceAll, strings_ToLower. change (str " ") with [SP].
  pose proof (space_length false (newlineRegexp_ReplaceAll (map unicode_ToLower text) [SP])).
  pose proof (newline_length (map unicode_ToLower text)).
  rewrite length_map in *. lia.
Qed.

Lemma ruleTable_longest :
  forallb (fun r => (22 <=? longestPhrase r)%nat) ruleTable = true.
Proof.
  vm_compute. reflexivity.
Qed.

Lemma ruleHolds_longest (comp : gostring) (r : list gostring * gostring) :
  ruleHolds comp r = true -> (longestPhrase r <= List.length comp)%nat.
Proof.
  unfold ruleHolds, longestPhrase. induction (fst r) as [|p ps IH]; cbn [forallb fold_right].
  - lia.
  - intro H. apply andb_true_iff in H as [Hp Hps].
    apply Contains_length in Hp. specialize (IH Hps). lia.
Qed.

(** X6: the normalisation never lengthens a text, and a text of fewer
    than 22 runes, the empty text among them, is never classified. *)
Theorem X6_short_texts_unrecognized (l : License) :
  (List.length (normalize (Text l)) <= List.length (Text l))%nat
  /\ ((List.length (Text l) < 22)%nat -> GuessType l = (l, Some ErrUnrecognizedLicense))
  /\ (forall l', GuessType l = (l', None) -> (22 <= List.length (Text l))%nat).
Proof.
  assert (A : forall t, firstMatch (normalize (Text l)) = Some t ->
                        (22 <= List.length (Text l))%nat).
  { intros t H. unfold firstMatch in H.
    destruct (find (ruleHolds (normalize (Text l))) ruleTable) as [r|] eqn:F;
      [|discriminate].
    apply find_some in F as [Hr Hh].
    apply ruleHolds_longest in Hh.
    pose proof ruleTable_longest as T. rewrite forallb_forall in T.
    specialize (T r Hr). apply Nat.leb_le in T.
    pose proof (normalize_length (Text l)). lia. }
  split; [apply normalize_length|]. split.
  - intro H. rewrite GuessType_classify. unfold classify.
    destruct (firstMatch (normalize (Text l))) as [t|] eqn:F; [|reflexivity].
    specialize (A t eq_refl). lia.
  - intros l' H. rewrite GuessType_classify in H. unfold classify in H.
    destruct (firstMatch (normalize (Text l))) as [t|] eqn:F; [|discriminate].
    now apply (A t).
Qed.

Lemma space_fixed (s : gostring) :
  noSpaceRun s = true -> spaceRegexp_scan false s [SP] = s.
Proof.
  induction s as [|c s IH]; [reflexivity|].
  cbn [noSpaceRun spaceRegexp_scan]. intro H.
  apply andb_true_iff in H as [H1 H2]. rewrite (IH H2).
  destruct (isSpace c); [|reflexivity].
  destruct (headIsSpace s); [discriminate H1 | reflexivity].
Qed.

Lemma squash_fixed (s : gostring) :
  ~ In LF s -> noSpaceRun s = true -> squash s = s.
Proof.
  intros H1 H2. unfold squash, spaceRegexp_ReplaceAll.
  rewrite (newline_without_LF s H1). now apply space_fixed.
Qed.

Lemma ToLower_fixed (s : gostring) :
  (forall c, In c s -> c <= 127 /\ ~ (65 <= c <= 90)) ->
  map unicode_ToLower s = s.
Proof.
  induction s as [|c s IH]; intro H; [reflexivity|]. cbn [map].
  rewrite IH by (intros d Hd; apply H; now right).
  destruct (H c (or_introl eq_refl)) as [H1 H2].
  rewrite unicode_ToLower_ascii by exact H1. unfold asciiLower.
  replace ((65 <=? c) && (c <=? 90)) with false; [reflexivity|].
  symmetry. apply andb_false_iff.
  destruct (Z.leb_spec 65 c); [right; apply Z.leb_gt; lia | now left].
Qed.

(** X5: a normalised text is a fixed point of the two replacements, and
    normalising twice is normalising once for a text of ASCII runes; more
    generally a text without upper-case ASCII letters, newlines and
    whitespace runs is its own normal form. *)
Theorem X5_normalize_fixed_points (text : gostring) :
  squash (normalize text) = normalize text
  /\ (Forall (fun r => r <= 127) text -> normalize (normalize text) = normalize text)
  /\ ((forall c, In c text -> c <= 127 /\ ~ (65 <= c <= 90)) ->
      ~ In LF text -> noSpaceRun text = true -> normalize text = text).
Proof.
  assert (F : squash (normalize text) = normalize text).
  { apply squash_fixed.
    - intro H. now apply normalize_In in H as [N _].
    - apply space_noSpaceRun. }
  split; [exact F|]. split.
  - intro Ha. rewrite (normalize_squash (normalize text)).
    rewrite ToLower_fixed; [exact F|].
    intros c Hc. apply normalize_In in Hc as [_ [->|(r & Hr & ->)]].
    + unfold SP. lia.
    + rewrite Forall_forall in Ha. specialize (Ha r Hr).
      rewrite unicode_ToLower_ascii by exact Ha.
      split; [|apply asciiLower_not_upper].
      unfold asciiLower. destruct ((65 <=? r) && (r <=? 90)) eqn:E; [|exact Ha].
      apply andb_true_iff in E as [_ E]. apply Z.leb_le in E. lia.
  - intros Hc Hn Hs. rewrite normalize_squash, (ToLower_fixed text Hc).
    now apply squash_fixed.
Qed.


(** ** A text inside a larger text *)

Lemma lastIs_app_cons (c d : rune) (x : gostring) :
  lastIs c (d :: x) = match x with [] => d =? c | _ :: _ => lastIs c x end.
Proof.
  now destruct x.
Qed.

Lemma newline_app_last (x z : gostring) :
  lastIs CR x = false ->
  newlineRegexp_ReplaceAll (x ++ z) [SP]
  = newlineRegexp_ReplaceAll x [SP] ++ newlineRegexp_ReplaceAll z [SP].
Proof.
  induction x as [|c x IH]; intro Hx; [reflexivity|].
  rewrite <- app_comm_cons, !newline_cons, headIs_app.
  destruct x as [|d x].
  - cbn [lastIs] in Hx. rewrite Hx. cbn [headIs app andb].
    now destruct (c =? LF).
  - rewrite IH by exact Hx.
    now destruct (c =? LF), ((c =? CR) && headIs LF (d :: x)).
Qed.

Lemma space_app_head (b : bool) (x z : gostring) :
  headIsSpace z = false ->
  spaceRegexp_scan b (x ++ z) [SP]
  = spaceRegexp_scan b x [SP] ++ spaceRegexp_scan false z [SP].
Proof.
  intro Hz. revert b. induction x as [|c x IH]; intro b.
  - cbn [app spaceRegexp_scan]. destruct b; [now apply space_true_false | reflexivity].
  - rewrite <- app_comm_cons. cbn [spaceRegexp_scan].
    rewrite headIsSpace_app, (IH true), (IH false).
    destruct x as [|d x].
    + rewrite Hz. cbn [headIsSpace]. now destruct (isSpace c), b.
    + now destruct (isSpace c), b, (headIsSpace (d :: x)).
Qed.

Lemma isSpace_LF_CR (c : rune) : isSpace c = false -> c <> LF /\ c <> CR.
Proof.
  unfold isSpace, LF, CR. intro H.
  rewrite !orb_false_iff, !Z.eqb_neq in H. lia.
Qed.

Lemma newline_spaces (w : gostring) :
  Forall (fun c => isSpace c = true) w ->
  Forall (fun c => isSpace c = true) (newlineRegexp_ReplaceAll w [SP]).
Proof.
  intro H. rewrite Forall_forall in *. intros c Hc.
  apply newline_In in Hc as [->|[Hc _]]; [reflexivity | now apply H].
Qed.

Lemma space_spaces (b : bool) (w : gostring) :
  Forall (fun c => isSpace c = true) w ->
  Forall (fun c => isSpace c = true) (spaceRegexp_scan b w [SP]).
Proof.
  intro H. rewrite Forall_forall in *. intros c Hc.
  apply space_In in Hc as [->|Hc]; [reflexivity | now apply H].
Qed.

(** The line endings of a text that starts and ends with runes other than
    whitespace are replaced without regard to what surrounds it. *)
Lemma newline_core (m : gostring) :
  m <> [] -> headIsSpace m = false -> lastIsSpace m = false ->
  newlineRegexp_ReplaceAll m [SP] <> []
  /\ headIsSpace (newlineRegexp_ReplaceAll m [SP]) = false
  /\ lastIsSpace (newlineRegexp_ReplaceAll m [SP]) = false
  /\ lastIs CR m = false.
Proof.
  intros Hne Hh Hl.
  assert (L : forall t, t <> [] -> lastIsSpace t = false ->
                        newlineRegexp_ReplaceAll t [SP] <> []
                        /\ lastIsSpace (newlineRegexp_ReplaceAll t [SP]) = false
                        /\ lastIs CR t = false).
  { induction t as [|c t IH]; intros Ht Hlt; [now contradiction Ht|].
    destruct t as [|d t].
    - cbn [lastIsSpace] in Hlt. destruct (isSpace_LF_CR c Hlt) as [N1 N2].
      rewrite newline_plain by assumption. cbn [newlineRegexp_ReplaceAll lastIsSpace lastIs].
      repeat split; [discriminate | exact Hlt | now apply Z.eqb_neq].
    - destruct (IH ltac:(discriminate) Hlt) as (R1 & R2 & R3).
      rewrite newline_cons.
      destruct (newlineRegexp_ReplaceAll (d :: t) [SP]) as [|e u] eqn:E;
        [now contradiction R1|].
      destruct (c =? LF); [|destruct ((c =? CR) && headIs LF (d :: t))];
        repeat split; trivial; discriminate. }
  destruct (L m Hne Hl) as (R1 & R2 & R3).
  repeat split; trivial.
  destruct m as [|c m]; [now contradiction Hne|]. cbn [headIsSpace] in Hh.
  destruct (isSpace_LF_CR c Hh) as [N1 N2].
  rewrite newline_plain by assumption. exact Hh.
Qed.

Lemma space_core (k : gostring) :
  k <> [] -> headIsSpace k = false ->
  spaceRegexp_scan false k [SP] <> [].
Proof.
  intros Hne Hh. destruct k as [|c k]; [now contradiction Hne|].
  cbn [headIsSpace] in Hh. cbn [spaceRegexp_scan]. rewrite Hh. discriminate.
Qed.

(** A text is whitespace, then a part that starts and ends with other
    runes (or nothing), then whitespace. *)
Lemma split_spaces (s : gostring) :
  exists w1 m w2,
    s = w1 ++ m ++ w2
    /\ Forall (fun c => isSpace c = true) w1
    /\ Forall (fun c => isSpace c = true) w2
    /\ (m = [] \/ (m <> [] /\ headIsSpace m = false /\ lastIsSpace m = false)).
Proof.
  induction s as [|c s (w1 & m & w2 & -> & F1 & F2 & Hm)].
  - exists [], [], []. repeat split; auto.
  - destruct (isSpace c) eqn:Hc.
    + destruct Hm as [->|Hm].
      * exists (c :: w1 ++ w2), [], []. rewrite !app_nil_r.
        repeat split; auto. constructor; [exact Hc|].
        apply Forall_app. now split.
      * exists (c :: w1), m, w2. repeat split; auto.
    + destruct w1 as [|v w1].
      * destruct Hm as [->|(Hne & Hh & Hl)].
        -- exists [], [c], w2. repeat split; auto. right.
           repeat split; [discriminate | exact Hc | exact Hc].
        -- exists [], (c :: m), w2. repeat split; auto. right.
           repeat split; [discriminate | exact Hc |].
           destruct m; [now contradiction Hne | exact Hl].
      * destruct Hm as [->|(Hne & Hh & Hl)].
        -- exists [], [c], ((v :: w1) ++ w2). repeat split; auto.
           ++ apply Forall_app. now split.
           ++ right. repeat split; [discriminate | exact Hc | exact Hc].
        -- exists [], (c :: (v :: w1) ++ m), w2.
           repeat split; auto.
           ++ cbn [app]. now rewrite <- app_assoc.
           ++ right. repeat split; [discriminate | exact Hc |].
              cbn [app lastIsSpace].
              clear -Hne Hl. revert v. induction w1 as [|u w1 IH]; intro v.
              ** destruct m; [now contradiction Hne | exact Hl].
              ** cbn [app]. apply (IH u).
Qed.

Lemma scan_leading (p w s : gostring) :
  headIsSpace p = false ->
  Forall (fun c => isSpace c = true) w ->
  scan (w ++ s) p = scan s p.
Proof.
  intros Hp Hw. induction Hw as [|c w Hc _ IH]; [reflexivity|].
  rewrite <- IH. rewrite <- (scan_skipSpaces p ((c :: w) ++ s) Hp).
  cbn [app skipSpaces]. rewrite Hc. now apply scan_skipSpaces.
Qed.

(** A phrase found in the result of the two replacements on [s] is found
    in their result on [s] with anything before and after it. *)
Lemma squash_context (x s y p : gostring) :
  goodPhrase p = true ->
  scan (squash s) p = true -> scan (squash (x ++ s ++ y)) p = true.
Proof.
  intros Hp H.
  assert (Hh : headIsSpace p = false).
  { destruct p; [discriminate Hp|]. apply andb_true_iff in Hp as [Hp _].
    now apply negb_true_iff in Hp. }
  destruct (split_spaces s) as (w1 & m & w2 & -> & F1 & F2 & [->|(Hne & Hmh & Hml)]).
  - exfalso. cbn [app] in H.
    assert (Fs : Forall (fun c => isSpace c = true) (squash (w1 ++ w2))).
    { unfold squash, spaceRegexp_ReplaceAll. apply space_spaces, newline_spaces.
      apply Forall_app. now split. }
    pose proof (scan_spaceTail p [] _ Hp Fs) as E. cbn [app] in E.
    rewrite E in H. destruct p; discriminate.
  - destruct (newline_core m Hne Hmh Hml) as (K1 & K2 & K3 & K4).
    assert (HLF : forall t, headIs LF (m ++ t) = false).
    { intro t. destruct m as [|c m]; [now contradiction Hne|].
      cbn [headIsSpace] in Hmh. cbn [app headIs].
      apply Z.eqb_neq. now apply isSpace_LF_CR. }
    assert (Shape : forall a b,
               squash (a ++ m ++ b)
               = spaceRegexp_scan false (newlineRegexp_ReplaceAll a [SP]) [SP]
                 ++ spaceRegexp_scan false (newlineRegexp_ReplaceAll m [SP]) [SP]
                 ++ spaceRegexp_scan false (newlineRegexp_ReplaceAll b [SP]) [SP]).
    { intros a b. unfold squash, spaceRegexp_ReplaceAll.
      rewrite (newline_app a (m ++ b)) by apply HLF.
      rewrite (newline_app_last m b K4).
      rewrite space_app_head.
      - now rewrite (space_app false _ _ K3) by (now right).
      - rewrite headIsSpace_app.
        destruct (newlineRegexp_ReplaceAll m [SP]); [now contradiction K1 | exact K2]. }
    rewrite (Shape w1 w2) in H.
    replace (x ++ (w1 ++ m ++ w2) ++ y) with ((x ++ w1) ++ m ++ (w2 ++ y))
      by (now rewrite <- !app_assoc).
    rewrite Shape.
    rewrite scan_leading in H
      by (trivial; now apply space_spaces, newline_spaces).
    rewrite scan_spaceTail in H
      by (trivial; now apply space_spaces, newline_spaces).
    apply Contains_iff in H as (a & b & E). rewrite E.
    match goal with
    | |- scan (?A ++ _ ++ ?B) p = true =>
        apply Contains_iff; exists (A ++ a), (b ++ B)
    end.
    now rewrite <- !app_assoc.
Qed.

Lemma normalize_context (a t b p : gostring) :
  goodPhrase p = true ->
  scan (normalize t) p = true -> scan (normalize (a ++ t ++ b)) p = true.
Proof.
  rewrite !normalize_squash, !map_app. apply squash_context.
Qed.

Lemma ruleHolds_context (a t b : gostring) (r : list gostring * gostring) :
  In r ruleTable ->
  ruleHolds (normalize t) r = true -> ruleHolds (normalize (a ++ t ++ b)) r = true.
Proof.
  intros Hr H. unfold ruleHolds in *. rewrite forallb_forall in *.
  intros p Hp. apply normalize_context; [|now apply H].
  pose proof ruleTable_phrases as T. rewrite forallb_forall in T.
  specialize (T r Hr). rewrite forallb_forall in T. now apply T.
Qed.

Lemma firstMatch_MIT (comp : gostring) :
  firstMatch comp = Some LicenseMIT <->
  scan comp (str "permission is hereby granted, free of charge, to any person obtaining a copy of this software") = true.
Proof.
  rewrite <- guessSwitch_firstMatch. unfold guessSwitch.
  generalize (scan comp). intro f. vm_compute.
  repeat match goal with
         | |- context [f ?p] => destruct (f p)
         end; split; intro H; try reflexivity; try discriminate H.
Qed.

(** X4: a license text inside a larger text, with anything before and
    after it, keeps every phrase match of its normal form: the larger
    text is classified too, and a text classified MIT stays MIT. *)
Theorem X4_text_in_context (l l' : License) (a b : gostring) :
  Text l' = a ++ Text l ++ b ->
  (forall p, goodPhrase p = true ->
             scan (normalize (Text l)) p = true ->
             scan (normalize (Text l')) p = true)
  /\ (snd (GuessType l) = None -> snd (GuessType l') = None)
  /\ (Type_ (fst (GuessType l)) = LicenseMIT -> snd (GuessType l) = None ->
      GuessType l' = (setType l' LicenseMIT, None)).
Proof.
  intro E. rewrite E. split; [|split].
  - intros p Hp H. now apply normalize_context.
  - rewrite !GuessType_classify. unfold classify, firstMatch. rewrite E.
    destruct (find (ruleHolds (normalize (Text l))) ruleTable) as [r|] eqn:F;
      [|discriminate].
    intros _. apply find_some in F as [Hr Hh].
    destruct (find (ruleHolds (normalize (a ++ Text l ++ b))) ruleTable) as [r'|] eqn:F';
      [reflexivity|].
    apply find_none_iff with (a := r) in F'; [|exact Hr].
    rewrite (ruleHolds_context a (Text l) b r Hr Hh) in F'. discriminate.
  - rewrite !GuessType_classify. unfold classify. rewrite E.
    destruct (firstMatch (normalize (Text l))) as [t|] eqn:F; [|discriminate].
    cbn [fst snd setType Type_]. intros -> _.
    apply firstMatch_MIT in F.
    apply (normalize_context a (Text l) b) in F; [|reflexivity].
    apply firstMatch_MIT in F. now rewrite F.
Qed.


(** ** More on the files and the directory scan *)

Lemma NewFromFile_classifyFile (dir name : gostring) :
  NewFromFile (filepath_Join dir name)
  = match ioutil_ReadFile (filepath_Join dir name) with
    | inr e => Err (IOError e)
    | inl _ =>
        match classifyFile dir name with
        | Some l => Ok l
        | None => Err ErrUnrecognizedLicense
        end
    end.
Proof.
  unfold NewFromFile, classifyFile.
  destruct (ioutil_ReadFile (filepath_Join dir name)) as [text|e]; [|reflexivity].
  rewrite GuessType_classify. cbn [Text]. now destruct (classify text).
Qed.

Lemma classifyFile_Some (dir name : gostring) (l : License) :
  classifyFile dir name = Some l <-> NewFromFile (filepath_Join dir name) = Ok l.
Proof.
  rewrite NewFromFile_classifyFile. unfold classifyFile.
  destruct (ioutil_ReadFile (filepath_Join dir name)) as [text|e].
  - destruct (classify text); split; intro H; try discriminate H;
      injection H as <-; reflexivity.
  - split; discriminate.
Qed.

Lemma classifyFile_None (dir name : gostring) :
  classifyFile dir name = None <-> failed (NewFromFile (filepath_Join dir name)) = true.
Proof.
  rewrite NewFromFile_classifyFile. unfold classifyFile.
  destruct (ioutil_ReadFile (filepath_Join dir name)) as [text|e].
  - destruct (classify text); split; intro H; try discriminate H; reflexivity.
  - split; reflexivity.
Qed.

Lemma NewFromFile_Ok (path : gostring) (l : License) :
  NewFromFile path = Ok l ->
  ioutil_ReadFile path = inl (Text l) /\ File l = path
  /\ Recognized l = true /\ GuessType l = (l, None).
Proof.
  unfold NewFromFile.
  destruct (ioutil_ReadFile path) as [text|pe]; [|discriminate].
  unfold GuessType. cbn [Text].
  destruct (guessSwitch (normalize text)) as [t|] eqn:G; [|discriminate].
  intro H. injection H as <-. cbn [setType Text File].
  split; [reflexivity|]. split; [reflexivity|]. split.
  - apply Recognized_loop_In. cbn [Type_]. now apply guessSwitch_known in G.
  - now rewrite G.
Qed.


Lemma flat_map_option_length {A B} (f : A -> option B) (l : list A) :
  (List.length (flat_map (fun a => optionToList (f a)) l) <= List.length l)%nat.
Proof.
  induction l as [|a l IH]; [reflexivity|]. cbn [flat_map].
  rewrite length_app. destruct (f a); cbn [optionToList List.length]; lia.
Qed.

Lemma flat_map_option_first {A B} (f : A -> option B) (l : list A) (b : B) (rest : list B) :
  flat_map (fun a => optionToList (f a)) l = b :: rest ->
  exists pre a post,
    l = pre ++ a :: post /\ f a = Some b /\ forall a', In a' pre -> f a' = None.
Proof.
  induction l as [|a l IH]; [discriminate|]. cbn [flat_map].
  destruct (f a) as [b'|] eqn:Fa; cbn [optionToList app].
  - intro H. injection H as -> _. exists [], a, l. repeat split; trivial. intros a' [].
  - intro H. destruct (IH H) as (pre & a0 & post & -> & Fa0 & Hpre).
    exists (a :: pre), a0, post. repeat split; trivial.
    intros a' [<-|Hin]; [exact Fa | now apply Hpre].
Qed.

Lemma flat_map_option_nil {A B} (f : A -> option B) (l : list A) :
  flat_map (fun a => optionToList (f a)) l = [] <-> forall a, In a l -> f a = None.
Proof.
  induction l as [|a l IH]; cbn [flat_map].
  - split; [intros _ a [] | reflexivity].
  - destruct (f a) as [b|] eqn:Fa; cbn [optionToList app].
    + split; [discriminate|]. intro H. specialize (H a (or_introl eq_refl)). congruence.
    + rewrite IH. split.
      * intros H a' [<-|Hin]; [exact Fa | now apply H].
      * intros H a' Hin. apply H. now right.
Qed.

(** X8: every entity that the directory scan returns comes from a
    candidate name of the listing: its file is that name joined to the
    directory, [NewFromFile] on that file returns the same entity, and its
    type is recognized; the scan returns at least one entity and no more
    entities than the listing has entries. *)
Theorem X8_scan_results (dir : gostring) (ls : list License) :
  guessFromDir dir = Ok ls ->
  exists fileinfos,
    ioutil_ReadDir dir = inl fileinfos
    /\ ls <> []
    /\ (List.length ls <= List.length fileinfos)%nat
    /\ forall l, In l ls ->
                 exists name,
                   In name (map Name fileinfos) /\ isLicenseName name = true
                   /\ File l = filepath_Join dir name
                   /\ NewFromFile (File l) = Ok l
                   /\ Recognized l = true.
Proof.
  intro H. pose proof (guessFromDir_nonempty dir ls H) as Hne.
  destruct (ioutil_ReadDir dir) as [fileinfos|pe] eqn:RD.
  - exists fileinfos. rewrite (guessFromDir_listing dir fileinfos RD) in H.
    set (cs := filter isLicenseName (map Name fileinfos)) in *.
    assert (E : ls = flat_map (fun name => optionToList (classifyFile dir name)) cs).
    { destruct cs as [|c cs']; [discriminate H|].
      destruct (flat_map _ (c :: cs')); [discriminate H | now injection H]. }
    split; [reflexivity|]. split; [exact Hne|]. split.
    + rewrite E.
      pose proof (flat_map_option_length (classifyFile dir) cs) as L1.
      pose proof (filter_length_le isLicenseName (map Name fileinfos)) as L2.
      fold cs in L2. rewrite length_map in L2. lia.
    + intros l Hl. rewrite E in Hl. apply in_flat_map in Hl as (name & Hname & Hl).
      destruct (classifyFile dir name) as [l0|] eqn:C; [|destruct Hl].
      destruct Hl as [<-|[]]. apply filter_In in Hname as [Hin Hc].
      exists name. split; [exact Hin|]. split; [exact Hc|].
      assert (Fl : File l0 = filepath_Join dir name).
      { unfold classifyFile in C.
        destruct (ioutil_ReadFile (filepath_Join dir name)); [|discriminate C].
        destruct (classify g); [|discriminate C]. now injection C as <-. }
      split; [exact Fl|]. rewrite Fl.
      apply classifyFile_Some in C. split; [exact C|].
      now apply NewFromFile_Ok in C.
  - unfold guessFromDir, readDirectory in H. rewrite RD in H. discriminate H.
Qed.



(** X10: [NewFromDir] returns an entity exactly when the listing can be
    read and the entity is what [NewFromFile] returns for the first
    candidate name, in the order of the listing, on which [NewFromFile]
    succeeds; the candidates before it are those that failed. *)
Theorem X10_NewFromDir_first_success (dir : gostring) (l : License) :
  NewFromDir dir = Some (Ok l) <->
  exists fileinfos pre name post,
    ioutil_ReadDir dir = inl fileinfos
    /\ filter isLicenseName (map Name fileinfos) = pre ++ name :: post
    /\ (forall n, In n pre -> failed (NewFromFile (filepath_Join dir n)) = true)
    /\ NewFromFile (filepath_Join dir name) = Ok l.
Proof.
  unfold NewFromDir. split.
  - destruct (guessFromDir dir) as [ls|e] eqn:G; [|discriminate].
    destruct ls as [|l0 rest]; [discriminate|].
    intro H. injection H as ->.
    destruct (ioutil_ReadDir dir) as [fileinfos|pe] eqn:RD.
    + rewrite (guessFromDir_listing dir fileinfos RD) in G.
      destruct (filter isLicenseName (map Name fileinfos)) as [|c cs] eqn:Ecs;
        [discriminate G|].
      destruct (flat_map _ (c :: cs)) as [|l1 ls1] eqn:F; [discriminate G|].
      injection G as -> ->.
      apply flat_map_option_first in F as (pre & name & post & E & Fn & Hpre).
      exists fileinfos, pre, name, post. split; [reflexivity|].
      split; [now rewrite Ecs|].
      split.
      * intros n Hn. apply classifyFile_None. now apply Hpre.
      * now apply classifyFile_Some.
    + unfold guessFromDir, readDirectory in G. rewrite RD in G. discriminate G.
  - intros (fileinfos & pre & name & post & RD & E & Hpre & Hname).
    rewrite (guessFromDir_listing dir fileinfos RD), E.
    assert (F : flat_map (fun n => optionToList (classifyFile dir n)) (pre ++ name :: post)
                = l :: flat_map (fun n => optionToList (classifyFile dir n)) post).
    { rewrite flat_map_app.
      replace (flat_map (fun n => optionToList (classifyFile dir n)) pre) with (@nil License).
      - cbn [app flat_map]. apply classifyFile_Some in Hname. now rewrite Hname.
      - symmetry. apply flat_map_option_nil. intros n Hn.
        apply classifyFile_None. now apply Hpre. }
    destruct (pre ++ name :: post) as [|c cs] eqn:Ecs.
    + destruct pre; discriminate Ecs.
    + now rewrite F.
Qed.

(** ** More on the File Locator *)




Lemma hasFoldPrefix_app (lit s suffix : gostring) :
  hasFoldPrefix lit s = true -> hasFoldPrefix lit (s ++ suffix) = true.
Proof.
  revert s. induction lit as [|c lit IH]; intros s H; [reflexivity|].
  destruct s as [|d s]; [discriminate H|]. cbn [hasFoldPrefix app] in *.
  apply andb_true_iff in H as [H1 H2]. rewrite H1. now apply IH.
Qed.

Lemma hasFoldPrefix_length (lit s : gostring) :
  hasFoldPrefix lit s = true -> (List.length lit <= List.length s)%nat.
Proof.
  revert s. induction lit as [|c lit IH]; intros s H; [cbn; lia|].
  destruct s as [|d s]; [discriminate H|]. cbn [hasFoldPrefix] in H.
  apply andb_true_iff in H as [_ H]. apply IH in H. cbn [List.length]. lia.
Qed.

(** X12: with the default patterns a file name is matched by at most one
    pattern, so the File Locator returns the candidate names of the
    listing, each as often as the listing has it; a candidate stays one
    when its name is extended, any name shorter than seven runes is no
    candidate, and a change of the case of ASCII letters does not matter. *)
Theorem X12_default_patterns (files : list gostring) :
  complileLicensePatters DefaultLicenseFiles = Ok defaultPatterns
  /\ matchLicenseFile defaultPatterns files = filter isLicenseName files
  /\ (NoDup files -> NoDup (matchLicenseFile defaultPatterns files))
  /\ (forall f, (List.length (filter (fun p => MatchString p f) defaultPatterns) <= 1)%nat)
  /\ (forall name suffix, isLicenseName name = true -> isLicenseName (name ++ suffix) = true)
  /\ (forall name, (List.length name < 7)%nat -> isLicenseName name = false)
  /\ (forall name name', sameUpToCase name name' -> isLicenseName name = isLicenseName name').
Proof.
  split; [apply complile_default|]. split; [apply matchLicenseFile_default|].
  split; [|split; [|split; [|split]]].
  - intro H. rewrite matchLicenseFile_default. now apply NoDup_filter.
  - intro f. pose proof (inner_count defaultPatterns f f) as C.
    rewrite default_matches in C.
    destruct (gostring_eq_dec f f) as [_|N]; [|now contradiction N].
    rewrite <- C. destruct (isLicenseName f); cbn [count_occ].
    + destruct (gostring_eq_dec f f); lia.
    + lia.
  - intros name suffix H. unfold isLicenseName in *.
    apply existsb_exists in H as (lit & Hlit & H).
    apply existsb_exists. exists lit. split; [exact Hlit | now apply hasFoldPrefix_app].
  - intros name Hlen. unfold isLicenseName.
    destruct (existsb _ _) eqn:E; [|reflexivity].
    apply existsb_exists in E as (lit & Hlit & H).
    apply hasFoldPrefix_length in H.
    cbn [In] in Hlit.
    destruct Hlit as [<-|[<-|[<-|[<-|[]]]]]; cbn in H; lia.
  - intros name name' H. unfold isLicenseName.
    cbn [existsb]. rewrite <- !matchItems_lits.
    rewrite !(matchItems_sameCase _ name name') by
      (trivial; intros c Hc; vm_compute in Hc;
       repeat (destruct Hc as [Hc|Hc]; [injection Hc as <-; lia|]); destruct Hc).
    reflexivity.
Qed.

Lemma inner_permutation (ps ps' : list Regexp) (file : gostring) :
  Permutation ps ps' ->
  flat_map (fun p => if MatchString p file then [file] else []) ps
  = flat_map (fun p => if MatchString p file then [file] else []) ps'.
Proof.
  intro H. induction H as [|p ps ps' _ IH|p q ps|ps ps' ps'' _ IH1 _ IH2].
  - reflexivity.
  - cbn [flat_map]. now rewrite IH.
  - cbn [flat_map]. now destruct (MatchString p file), (MatchString q file).
  - now rewrite IH1.
Qed.

Lemma inner_length (ps : list Regexp) (file : gostring) :
  (List.length (flat_map (fun p => if MatchString p file then [file] else []) ps)
   <= List.length ps)%nat.
Proof.
  induction ps as [|p ps IH]; [reflexivity|]. cbn [flat_map].
  rewrite length_app. destruct (MatchString p file); cbn [List.length]; lia.
Qed.

(** X13: the File Locator finds nothing, and [getLicenseFile] fails with
    the no-license-file error, when there are no patterns or no file
    names; [getLicenseFile] fails with no other error, and what it returns
    is not empty and holds names of the listing only; the result has at
    most one entry per file name and pattern, and the order of the
    patterns does not matter. *)
Theorem X13_locator_edges (patterns : list Regexp) (files : list gostring) :
  matchLicenseFile [] files = []
  /\ matchLicenseFile patterns [] = []
  /\ getLicenseFile [] files = Err ErrNoLicenseFile
  /\ getLicenseFile patterns [] = Err ErrNoLicenseFile
  /\ (forall e, getLicenseFile patterns files = Err e -> e = ErrNoLicenseFile)
  /\ (forall ms, getLicenseFile patterns files = Ok ms ->
                 ms <> [] /\ forall m, In m ms -> In m files)
  /\ (List.length (matchLicenseFile patterns files)
      <= List.length files * List.length patterns)%nat
  /\ (forall patterns', Permutation patterns patterns' ->
                        matchLicenseFile patterns' files = matchLicenseFile patterns files).
Proof.
  assert (E : matchLicenseFile [] files = []).
  { rewrite matchLicenseFile_locate. unfold locate.
    induction files as [|f fs IH]; [reflexivity | exact IH]. }
  split; [exact E|]. split; [reflexivity|].
  split; [unfold getLicenseFile; now rewrite E|]. split; [reflexivity|].
  split; [|split; [|split]].
  - unfold getLicenseFile. intros e H.
    destruct (matchLicenseFile patterns files); cbn in H; [|discriminate H].
    now injection H as <-.
  - unfold getLicenseFile. intros ms H.
    destruct (matchLicenseFile patterns files) as [|m0 ms0] eqn:M; cbn in H;
      [discriminate H|].
    injection H as <-. split; [discriminate|].
    intros m Hm. rewrite <- M, matchLicenseFile_locate in Hm.
    now apply locate_In in Hm as [Hm _].
  - rewrite matchLicenseFile_locate. unfold locate. clear E.
    induction files as [|f fs IH]; [reflexivity|].
    cbn [flat_map List.length Nat.mul].
    rewrite length_app. pose proof (inner_length patterns f). lia.
  - intros patterns' P. rewrite !matchLicenseFile_locate. unfold locate. clear E.
    induction files as [|f fs IH]; [reflexivity|]. cbn [flat_map].
    now rewrite IH, (inner_permutation patterns patterns' f P).
Qed.


End Unicode.

(** ** What the directory scan reads *)

Lemma flat_map_ext_In {A B} (f g : A -> list B) (l : list A) :
  (forall a, In a l -> f a = g a) -> flat_map f l = flat_map g l.
Proof.
  induction l as [|a l IH]; intro H; [reflexivity|]. cbn [flat_map].
  rewrite (H a (or_introl eq_refl)), IH; [reflexivity|].
  intros b Hb. apply H. now right.
Qed.

(** X14: the directory scan reads the candidate files only and looks at
    nothing of the listing but the candidate names: two states of the
    file system give the same result when the candidate names of the
    directory are the same and the candidate files read the same, whatever
    the other entries of the listing and the other files are. *)
Theorem X14_scan_reads_candidates_only
        (caseTableLower : rune -> rune)
        (foldTable : rune -> rune -> bool)
        (regexpEngine : gostring -> gostring -> bool)
        (readFile1 readFile2 : gostring -> gostring + PathError)
        (readDir1 readDir2 : gostring -> list FileInfo + PathError)
        (filepath_Join : gostring -> gostring -> gostring)
        (dir : gostring) (fileinfos1 fileinfos2 : list FileInfo) :
  readDir1 dir = inl fileinfos1 ->
  readDir2 dir = inl fileinfos2 ->
  filter (isLicenseName foldTable) (map Name fileinfos1)
  = filter (isLicenseName foldTable) (map Name fileinfos2) ->
  (forall name,
      In name (filter (isLicenseName foldTable) (map Name fileinfos1)) ->
      readFile1 (filepath_Join dir name) = readFile2 (filepath_Join dir name)) ->
  guessFromDir caseTableLower foldTable regexpEngine readFile1 readDir1 filepath_Join dir
  = guessFromDir caseTableLower foldTable regexpEngine readFile2 readDir2 filepath_Join dir.
Proof.
  intros RD1 RD2 Ec Hf.
  rewrite (guessFromDir_listing caseTableLower foldTable regexpEngine readFile1 readDir1
                                filepath_Join dir fileinfos1 RD1).
  rewrite (guessFromDir_listing caseTableLower foldTable regexpEngine readFile2 readDir2
                                filepath_Join dir fileinfos2 RD2).
  rewrite <- Ec.
  destruct (filter (isLicenseName foldTable) (map Name fileinfos1)) as [|c cs];
    [reflexivity|].
  rewrite (flat_map_ext_In
             (fun name => optionToList (classifyFile caseTableLower readFile1 filepath_Join dir name))
             (fun name => optionToList (classifyFile caseTableLower readFile2 filepath_Join dir name))
             (c :: cs)).
  - reflexivity.
  - intros name Hname. unfold classifyFile. now rewrite (Hf name Hname).
Qed.

(** ** The properties on the sample file system *)

Lemma C1_first_matching_rule_witness :
  GuessType sampleCaseTable (New [] mitText) = (New LicenseMIT mitText, None)
  /\ GuessType sampleCaseTable (New [] helloText)
     = (New [] helloText, Some ErrUnrecognizedLicense).
Proof.
  split.
  - rewrite (proj1 (C1_first_matching_rule sampleCaseTable (New [] mitText))).
    vm_compute. reflexivity.
  - rewrite (proj1 (C1_first_matching_rule sampleCaseTable (New [] helloText))).
    vm_compute. reflexivity.
Defined.

Lemma C2_BSD_family_witness :
  GuessType sampleCaseTable (New [] bsd3Text) = (New LicenseBSD3Clause bsd3Text, None)
  /\ GuessType sampleCaseTable (New [] bsd2Text) = (New LicenseBSD2Clause bsd2Text, None).
Proof.
  split.
  - rewrite (C2_BSD_family sampleCaseTable (New [] bsd3Text)).
    + vm_compute. reflexivity.
    + vm_compute. reflexivity.
    + vm_compute. reflexivity.
  - rewrite (C2_BSD_family sampleCaseTable (New [] bsd2Text)).
    + vm_compute. reflexivity.
    + vm_compute. reflexivity.
    + vm_compute. reflexivity.
Defined.

Local Abbreviation scanDir :=
  (guessFromDir sampleCaseTable sampleFoldTable sampleEngine
                sampleReadFile sampleReadDir sampleJoin).
Local Abbreviation firstOfDir :=
  (NewFromDir sampleCaseTable sampleFoldTable sampleEngine
              sampleReadFile sampleReadDir sampleJoin).

(** C3, as stated, fails on a directory that does not exist: the scan
    returns the error of the operating system, not the no-license-file
    error. *)
Lemma C3_counterexample :
  sampleReadDir (str "/missing")
  = inr {| Op := str "open"; Path := str "/missing";
           Msg := str "no such file or directory" |}
  /\ scanDir (str "/missing")
     = Err (IOError {| Op := str "open"; Path := str "/missing";
                       Msg := str "no such file or directory" |})
  /\ scanDir (str "/missing") <> Err ErrNoLicenseFile.
Proof.
  split; [reflexivity|]. split; [reflexivity|].
  vm_compute. discriminate.
Qed.

Lemma C3_scan_errors_witness :
  scanDir (str "/missing")
  = Err (IOError {| Op := str "open"; Path := str "/missing";
                    Msg := str "no such file or directory" |})
  /\ scanDir (str "/docs") = Err ErrNoLicenseFile
  /\ firstOfDir (str "/docs") = Some (Err ErrNoLicenseFile).
Proof.
  pose proof (C3_scan_errors sampleCaseTable sampleFoldTable sampleEngine
                             sampleReadFile sampleReadDir sampleJoin) as W.
  split; [|split].
  - apply (proj1 (W (str "/missing"))). reflexivity.
  - apply (proj2 (W (str "/docs"))
                 [ {| Name := str "README.md"; IsDir := false |} ]).
    + reflexivity.
    + intros fi [<-|[]]. reflexivity.
  - apply (proj2 (W (str "/docs"))
                 [ {| Name := str "README.md"; IsDir := false |} ]).
    + reflexivity.
    + intros fi [<-|[]]. reflexivity.
Defined.

Lemma C4_scan_skips_failures_witness :
  scanDir (str "/repo")
  = Ok [ {| Type_ := LicenseMIT; Text := mitText; File := str "/repo/LICENSE" |};
         {| Type_ := LicenseApache20; Text := apacheText;
            File := str "/repo/LICENSE.txt" |} ].
Proof.
  rewrite (proj1 (C4_scan_skips_failures
                    sampleCaseTable sampleFoldTable sampleEngine sampleReadFile
                    sampleReadDir sampleJoin (str "/repo")
                    [ {| Name := str "COPYING"; IsDir := false |};
                      {| Name := str "LICENSE"; IsDir := false |};
                      {| Name := str "LICENSE.bad"; IsDir := false |};
                      {| Name := str "LICENSE.txt"; IsDir := false |};
                      {| Name := str "README.md"; IsDir := false |} ]
                    eq_refl
                    ltac:(vm_compute; discriminate))).
  vm_compute. reflexivity.
Defined.

Lemma C5_file_locator_witness :
  matchLicenseFile sampleFoldTable sampleEngine (defaultPatterns ++ defaultPatterns)
                   [str "README.md"; str "Licence"; str "COPYING.txt"]
  = [str "Licence"; str "Licence"; str "COPYING.txt"; str "COPYING.txt"]
  /\ getLicenseFile sampleFoldTable sampleEngine defaultPatterns [str "README.md"]
     = Err ErrNoLicenseFile
  /\ MatchString sampleFoldTable sampleEngine
                 (ReFold (map ReLit (str "license") ++ [ReDotStar])) (str "LICENSE.txt")
     = MatchString sampleFoldTable sampleEngine
                   (ReFold (map ReLit (str "license") ++ [ReDotStar])) (str "license.TXT").
Proof.
  split; [|split].
  - rewrite (proj1 (C5_file_locator sampleFoldTable sampleEngine _ _)).
    vm_compute. reflexivity.
  - apply (proj1 (proj2 (proj2 (proj2 (proj2
             (C5_file_locator sampleFoldTable sampleEngine defaultPatterns
                              [str "README.md"])))))).
    vm_compute. reflexivity.
  - apply (proj1 (proj2 (proj2 (proj2 (proj2 (proj2 (proj2 (proj2
             (C5_file_locator sampleFoldTable sampleEngine [] []))))))))).
    + intros c H. vm_compute in H.
      repeat (destruct H as [H|H];
              [first [discriminate H | injection H as <-; lia]|]).
      destruct H.
    + vm_compute. reflexivity.
Defined.


Lemma C7_normalize_witness :
  normalize sampleCaseTable apacheText
  = str "licensed under the apache license, version 2.0; see http://www.apache.org/licenses/license-2.0"
  /\ Forall (fun c => ~ (65 <= c <= 90)) (normalize sampleCaseTable apacheText).
Proof.
  split.
  - rewrite (proj1 (C7_normalize sampleCaseTable apacheText)). vm_compute. reflexivity.
  - apply (proj1 (proj2 (proj2 (proj2 (proj2 (C7_normalize sampleCaseTable apacheText)))))).
    apply Forall_forall. intros r H. vm_compute in H.
    repeat (destruct H as [<-|H]; [lia|]). destruct H.
Defined.

Lemma C8_identifier_registry_witness :
  In LicenseMIT KnownLicenses
  /\ Recognized (New LicenseMIT mitText) = true
  /\ Recognized (New (str "WTFPL") helloText) = false.
Proof.
  destruct (C8_identifier_registry sampleCaseTable) as (W1 & W2 & W3 & W4).
  split; [|split].
  - apply (W1 (New [] mitText) (New LicenseMIT mitText)). vm_compute. reflexivity.
  - apply (W1 (New [] mitText) (New LicenseMIT mitText)). vm_compute. reflexivity.
  - apply W4. vm_compute.
    intro H. repeat (destruct H as [H|H]; [discriminate H|]). destruct H.
Defined.

Lemma C9_NewFromDir_first_witness :
  exists l rest,
    [ {| Type_ := LicenseMIT; Text := mitText; File := str "/repo/LICENSE" |};
      {| Type_ := LicenseApache20; Text := apacheText;
         File := str "/repo/LICENSE.txt" |} ] = l :: rest
    /\ firstOfDir (str "/repo") = Some (Ok l).
Proof.
  apply (proj1 (C9_NewFromDir_first sampleCaseTable sampleFoldTable sampleEngine
                                    sampleReadFile sampleReadDir sampleJoin
                                    (str "/repo"))).
  vm_compute. reflexivity.
Defined.

Lemma C10_failure_keeps_entity_witness :
  ErrUnrecognizedLicense = ErrUnrecognizedLicense
  /\ New LicenseMIT helloText = New LicenseMIT helloText
  /\ Type_ (New LicenseMIT helloText) = LicenseMIT
  /\ Text (New LicenseMIT helloText) = helloText
  /\ File (New LicenseMIT helloText) = [].
Proof.
  apply (C10_failure_keeps_entity sampleCaseTable (New LicenseMIT helloText)
                                  (New LicenseMIT helloText) ErrUnrecognizedLicense).
  vm_compute. reflexivity.
Defined.

(** ** The further properties on the samples *)

Lemma X1_scan_is_containment_witness :
  scan (str "hello world") (str "lo wo") = true
  /\ scan (str "hello") (str "hello world") = false.
Proof.
  split.
  - apply (proj1 (X1_scan_is_containment (str "hello world") (str "lo wo"))).
    exists (str "hel"), (str "rld"). reflexivity.
  - apply (proj1 (proj2 (proj2 (X1_scan_is_containment (str "hello") (str "hello world"))))).
    vm_compute. lia.
Defined.

Lemma X2_GuessType_frame_witness :
  snd (GuessType sampleCaseTable
         {| Type_ := LicenseApache20; Text := mitText; File := str "/x" |})
  = snd (GuessType sampleCaseTable (New [] mitText))
  /\ Type_ (fst (GuessType sampleCaseTable
                   {| Type_ := LicenseApache20; Text := mitText; File := str "/x" |}))
     = Type_ (fst (GuessType sampleCaseTable (New [] mitText))).
Proof.
  destruct (proj2 (proj2 (proj2 (X2_GuessType_frame sampleCaseTable (New [] mitText))))
              {| Type_ := LicenseApache20; Text := mitText; File := str "/x" |}
              eq_refl) as [W1 W2].
  split; [exact W1|]. apply W2. vm_compute. reflexivity.
Defined.

Lemma X3_every_rule_fires_witness :
  exists text, GuessType sampleCaseTable (New [] text) = (New LicenseZlib text, None).
Proof.
  apply (proj1 (proj2 (X3_every_rule_fires sampleCaseTable) LicenseZlib)).
  unfold KnownLicenses. repeat (first [left; reflexivity | right]).
Defined.

Lemma X4_text_in_context_witness :
  GuessType sampleCaseTable
    (New [] (str "Copyright (c) 2020 Jane Doe" ++ [LF; LF] ++ mitText
             ++ [LF] ++ str "permission to use, copy, modify, and/or distribute this software for any purpose"))
  = (New LicenseMIT
         (str "Copyright (c) 2020 Jane Doe" ++ [LF; LF] ++ mitText
          ++ [LF] ++ str "permission to use, copy, modify, and/or distribute this software for any purpose"),
     None).
Proof.
  apply (proj2 (proj2 (X4_text_in_context
                         sampleCaseTable (New [] mitText)
                         (New [] (str "Copyright (c) 2020 Jane Doe" ++ [LF; LF] ++ mitText
                                  ++ [LF] ++ str "permission to use, copy, modify, and/or distribute this software for any purpose"))
                         (str "Copyright (c) 2020 Jane Doe" ++ [LF; LF])
                         ([LF] ++ str "permission to use, copy, modify, and/or distribute this software for any purpose")
                         eq_refl))).
  - vm_compute. reflexivity.
  - vm_compute. reflexivity.
Defined.

Lemma X5_normalize_fixed_points_witness :
  normalize sampleCaseTable (normalize sampleCaseTable apacheText)
  = normalize sampleCaseTable apacheText.
Proof.
  apply (proj1 (proj2 (X5_normalize_fixed_points sampleCaseTable apacheText))).
  apply Forall_forall. intros r H. vm_compute in H.
  repeat (destruct H as [<-|H]; [lia|]). destruct H.
Defined.

Lemma X6_short_texts_unrecognized_witness :
  GuessType sampleCaseTable (New LicenseMIT helloText)
  = (New LicenseMIT helloText, Some ErrUnrecognizedLicense).
Proof.
  apply (proj1 (proj2 (X6_short_texts_unrecognized sampleCaseTable
                                                   (New LicenseMIT helloText)))).
  vm_compute. lia.
Defined.


Lemma X8_scan_results_witness :
  exists fileinfos,
    sampleReadDir (str "/repo") = inl fileinfos
    /\ (2 <= List.length fileinfos)%nat.
Proof.
  destruct (X8_scan_results
              sampleCaseTable sampleFoldTable sampleEngine sampleReadFile
              sampleReadDir sampleJoin (str "/repo")
              [ {| Type_ := LicenseMIT; Text := mitText; File := str "/repo/LICENSE" |};
                {| Type_ := LicenseApache20; Text := apacheText;
                   File := str "/repo/LICENSE.txt" |} ]
              ltac:(vm_compute; reflexivity))
    as (fileinfos & RD & _ & Hlen & _).
  exists fileinfos. split; [exact RD | exact Hlen].
Defined.



Lemma X12_default_patterns_witness :
  NoDup (matchLicenseFile sampleFoldTable sampleEngine defaultPatterns
                          [str "LICENSE"; str "README.md"; str "UNLICENSE.txt"])
  /\ isLicenseName sampleFoldTable (str "unlicense" ++ str "d.txt") = true.
Proof.
  pose proof (X12_default_patterns sampleFoldTable sampleEngine
                                   [str "LICENSE"; str "README.md"; str "UNLICENSE.txt"])
    as (_ & _ & W3 & _ & W5 & _).
  split.
  - apply W3. repeat constructor; vm_compute; intro H;
      repeat (destruct H as [H|H]; [discriminate H|]); destruct H.
  - apply W5. vm_compute. reflexivity.
Defined.

Lemma X13_locator_edges_witness :
  matchLicenseFile sampleFoldTable sampleEngine (rev defaultPatterns)
                   [str "COPYING"; str "Licence"]
  = matchLicenseFile sampleFoldTable sampleEngine defaultPatterns
                     [str "COPYING"; str "Licence"].
Proof.
  apply (proj2 (proj2 (proj2 (proj2 (proj2 (proj2 (proj2
           (X13_locator_edges sampleFoldTable sampleEngine defaultPatterns
                              [str "COPYING"; str "Licence"])))))))).
  apply Permutation_rev.
Defined.

Lemma X10_NewFromDir_first_success_witness :
  firstOfDir (str "/repo")
  = Some (Ok {| Type_ := LicenseMIT; Text := mitText; File := str "/repo/LICENSE" |}).
Proof.
  apply (proj2 (X10_NewFromDir_first_success
                  sampleCaseTable sampleFoldTable sampleEngine sampleReadFile
                  sampleReadDir sampleJoin (str "/repo")
                  {| Type_ := LicenseMIT; Text := mitText; File := str "/repo/LICENSE" |})).
  exists [ {| Name := str "COPYING"; IsDir := false |};
           {| Name := str "LICENSE"; IsDir := false |};
           {| Name := str "LICENSE.bad"; IsDir := false |};
           {| Name := str "LICENSE.txt"; IsDir := false |};
           {| Name := str "README.md"; IsDir := false |} ],
         [str "COPYING"], (str "LICENSE"), [str "LICENSE.bad"; str "LICENSE.txt"].
  split; [reflexivity|]. split; [vm_compute; reflexivity|]. split.
  - intros n [<-|[]]. vm_compute. reflexivity.
  - vm_compute. reflexivity.
Defined.

Lemma X14_scan_reads_candidates_only_witness :
  guessFromDir sampleCaseTable sampleFoldTable sampleEngine
               sampleReadFile sampleReadDir sampleJoin (str "/repo")
  = guessFromDir sampleCaseTable sampleFoldTable sampleEngine
                 (fun path => if gostring_eqb path (str "/repo/README.md")
                              then inl mitText else sampleReadFile path)
                 (fun _ => inl [ {| Name := str "COPYING"; IsDir := true |};
                                 {| Name := str "LICENSE"; IsDir := false |};
                                 {| Name := str "LICENSE.bad"; IsDir := false |};
                                 {| Name := str "LICENSE.txt"; IsDir := false |} ])
                 sampleJoin (str "/repo").
Proof.
  apply (X14_scan_reads_candidates_only
           sampleCaseTable sampleFoldTable sampleEngine _ _ _ _ sampleJoin (str "/repo")
           [ {| Name := str "COPYING"; IsDir := false |};
             {| Name := str "LICENSE"; IsDir := false |};
             {| Name := str "LICENSE.bad"; IsDir := false |};
             {| Name := str "LICENSE.txt"; IsDir := false |};
             {| Name := str "README.md"; IsDir := false |} ]
           [ {| Name := str "COPYING"; IsDir := true |};
             {| Name := str "LICENSE"; IsDir := false |};
             {| Name := str "LICENSE.bad"; IsDir := false |};
             {| Name := str "LICENSE.txt"; IsDir := false |} ]).
  - reflexivity.
  - reflexivity.
  - vm_compute. reflexivity.
  - intros name H. vm_compute in H.
    repeat (destruct H as [<-|H]; [vm_compute; reflexivity|]). destruct H.
Defined.
